(** * Quantitative signal engine of crypto-trading-python-bot

    A shallow embedding of [common/utils.py] (the depth discretizer, the
    order book helpers, time intervals and decimals),
    [common/signal_generation.py] (score aggregation and combination, the
    signal rules, the backtest simulator and the interval precision
    evaluator) and [common/feature_generation.py] (threshold and depth
    features), and the properties of these functions.

    Numbers.  Python floats are read as exact rationals ([Q]); rounding,
    overflow and the sign of zero are not modelled.  Cells of a pandas
    column additionally range over the two infinities and NaN, the marker
    of a missing value.  The depth discretizer is embedded a second time
    with every operation rounded to binary64 ([Binary64], [DepthFloat]),
    to show where rounding changes what it returns. *)

From Stdlib Require Import String QArith Qabs Qround ZArith List Bool Lia Lqa.
From Stdlib Require DecimalString DecimalZ.
Import ListNotations.
Open Scope Q_scope.

(** ** Rational helpers *)

Definition Qlt_bool (x y : Q) : bool := negb (Qle_bool y x).

(** ** Column cells: floats with infinities and NaN *)

Module Float.

Inductive cell : Type :=
| Num (q : Q)
| PInf
| NInf
| NaN.

Definition neg (a : cell) : cell :=
  match a with
  | Num x => Num (- x)
  | PInf => NInf
  | NInf => PInf
  | NaN => NaN
  end.

Definition add (a b : cell) : cell :=
  match a, b with
  | NaN, _ | _, NaN => NaN
  | Num x, Num y => Num (x + y)
  | PInf, NInf | NInf, PInf => NaN
  | PInf, _ | _, PInf => PInf
  | NInf, _ | _, NInf => NInf
  end.

Definition sub (a b : cell) : cell :=
  match a, b with
  | NaN, _ | _, NaN => NaN
  | Num x, Num y => Num (x - y)
  | PInf, PInf | NInf, NInf => NaN
  | PInf, _ | _, NInf => PInf
  | NInf, _ | _, PInf => NInf
  end.

(** Sign of an infinity scaled by the rational [x]; [inf * 0] is NaN. *)
Definition scale_inf (positive : bool) (x : Q) : cell :=
  match x ?= 0 with
  | Gt => if positive then PInf else NInf
  | Lt => if positive then NInf else PInf
  | Eq => NaN
  end.

Definition mul (a b : cell) : cell :=
  match a, b with
  | NaN, _ | _, NaN => NaN
  | Num x, Num y => Num (x * y)
  | Num x, PInf | PInf, Num x => scale_inf true x
  | Num x, NInf | NInf, Num x => scale_inf false x
  | PInf, PInf | NInf, NInf => PInf
  | PInf, NInf | NInf, PInf => NInf
  end.

(** numpy division: a finite non-zero value over zero is an infinity,
    [0/0] and [inf/inf] are NaN; no exception is raised. *)
Definition div (a b : cell) : cell :=
  match a, b with
  | NaN, _ | _, NaN => NaN
  | Num x, Num y =>
      if Qeq_bool y 0 then scale_inf true x else Num (x / y)
  | Num _, PInf | Num _, NInf => Num 0
  | PInf, Num y => if Qlt_bool y 0 then NInf else PInf
  | NInf, Num y => if Qlt_bool y 0 then PInf else NInf
  | PInf, PInf | PInf, NInf | NInf, PInf | NInf, NInf => NaN
  end.

(** Comparisons: every comparison with NaN is false. *)
Definition lt (a b : cell) : bool :=
  match a, b with
  | NaN, _ | _, NaN => false
  | Num x, Num y => Qlt_bool x y
  | NInf, NInf => false
  | NInf, _ => true
  | _, NInf => false
  | PInf, _ => false
  | _, PInf => true
  end.

Definition le (a b : cell) : bool :=
  match a, b with
  | NaN, _ | _, NaN => false
  | Num x, Num y => Qle_bool x y
  | NInf, _ => true
  | _, NInf => false
  | _, PInf => true
  | PInf, _ => false
  end.

Definition gt (a b : cell) : bool := lt b a.
Definition ge (a b : cell) : bool := le b a.

(** [pd.isnull] *)
Definition isnull (a : cell) : bool :=
  match a with NaN => true | _ => false end.

(** Python truthiness of a float: only zero is false (NaN is true). *)
Definition truthy (a : cell) : bool :=
  match a with Num x => negb (Qeq_bool x 0) | _ => true end.

Definition of_bool (b : bool) : cell := if b then Num 1 else Num 0.

End Float.

Import Float.

(** Element-wise binary operation on two aligned columns. *)
Definition zip_with {A B C : Type} (f : A -> B -> C) (l1 : list A) (l2 : list B) : list C :=
  map (fun p => f (fst p) (snd p)) (combine l1 l2).

(** ** Score table: one row per timestamp, a buy and a sell score *)

Record score_row : Type := mk_row { buy_score : cell; sell_score : cell }.

Definition frame := list score_row.

Definition col (f : score_row -> cell) (df : frame) : list cell := map f df.

(** ** Signal rule engine *)

Module Rule.

(** [apply_rule_with_score_thresholds]: the two boolean columns
    ['buy_signal_column'] and ['sell_signal_column'] written to the frame. *)
Definition apply_rule_with_score_thresholds
    (df : frame) (buy_signal_threshold sell_signal_threshold : Q)
  : list bool * list bool :=
  let buy := col buy_score df in
  let sell := col sell_score df in
  let buy_signal_column :=
    zip_with andb
      (map (fun d => gt d (Num 0)) (zip_with sub buy sell))
      (map (fun b => ge b (Num buy_signal_threshold)) buy) in
  let sell_signal_column :=
    zip_with andb
      (map (fun d => gt d (Num 0)) (zip_with sub sell buy))
      (map (fun s => ge s (Num sell_signal_threshold)) sell) in
  (buy_signal_column, sell_signal_column).

(** Python's [x and y] on booleans: [y] is evaluated only when [x] holds. *)
Definition py_and (x : bool) (y : unit -> bool) : bool :=
  if x then y tt else x.

(** [apply_rule_with_score_thresholds_one_row] *)
Definition apply_rule_with_score_thresholds_one_row
    (row : score_row) (buy_signal_threshold sell_signal_threshold : Q)
  : bool * bool :=
  let buy_score := buy_score row in
  let sell_score := sell_score row in
  let buy_signal :=
    py_and (gt (sub buy_score sell_score) (Num 0))
           (fun _ => ge buy_score (Num buy_signal_threshold)) in
  let sell_signal :=
    py_and (gt (sub sell_score buy_score) (Num 0))
           (fun _ => ge sell_score (Num sell_signal_threshold)) in
  (buy_signal, sell_signal).

End Rule.

(** ** Score combination *)

Module Combine.

(** Result of a combine function: the two output columns stored in the
    frame and the returned column. *)
Record combined : Type :=
  mk_combined { buy_column_out : list cell;
                sell_column_out : list cell;
                returned : list cell }.

(** [combine_scores_relative] *)
Definition combine_scores_relative (df : frame) : combined :=
  let buy := col buy_score df in
  let sell := col sell_score df in
  let buy_plus_sell := zip_with add buy sell in
  let buy_sell_score :=
    map (fun x => sub (mul x (Num 2)) (Num 1)) (zip_with div buy buy_plus_sell) in
  mk_combined buy_sell_score (map neg buy_sell_score) buy_sell_score.

(** [combine_scores_difference] *)
Definition combine_scores_difference (df : frame) : combined :=
  let buy := col buy_score df in
  let sell := col sell_score df in
  let buy_minus_sell := zip_with sub buy sell in
  mk_combined buy_minus_sell (map neg buy_minus_sell) buy_minus_sell.

Inductive mode : Type := Relative | Difference | Other.

(** [combine_scores]: dispatch on [model.get("combine")]; with any other
    value the frame is left as it is. *)
Definition combine_scores (df : frame) (m : mode) : list cell * list cell :=
  match m with
  | Relative =>
      let r := combine_scores_relative df in (buy_column_out r, sell_column_out r)
  | Difference =>
      let r := combine_scores_difference df in (buy_column_out r, sell_column_out r)
  | Other => (col buy_score df, col sell_score df)
  end.

(** A finite, non-negative score. *)
Definition nonneg_score (c : cell) : Prop :=
  match c with Num x => 0 <= x | _ => False end.

Definition nonneg_row (r : score_row) : Prop :=
  nonneg_score (buy_score r) /\ nonneg_score (sell_score r).

(** The raw scores of a row sum to zero. *)
Definition sum_is_zero (r : score_row) : Prop :=
  match add (buy_score r) (sell_score r) with
  | Num s => s == 0
  | _ => False
  end.

End Combine.

(** ** Exceptions *)

Inductive exn : Type :=
| ValueError (msg : string)
| IndexError
| ZeroDivisionError
| UnboundLocalError.

Inductive result (A : Type) : Type :=
| Ok (a : A)
| Raise (e : exn).

Arguments Ok {A} a.
Arguments Raise {A} e.

Definition bind {A B : Type} (r : result A) (k : A -> result B) : result B :=
  match r with
  | Ok a => k a
  | Raise e => Raise e
  end.

Notation "'let*' x ':=' r 'in' k" := (bind r (fun x => k))
  (at level 10, x pattern, r at level 100, k at level 200).

(** An error raised on purpose by a [raise] statement of the repository,
    as opposed to one that escapes from indexing or arithmetic. *)
Definition deliberate (e : exn) : bool :=
  match e with
  | ValueError _ => true
  | IndexError | ZeroDivisionError | UnboundLocalError => false
  end.

Definition Qsum (l : list Q) : Q := fold_right Qplus 0 l.

Definition Qnat (n : nat) : Q := inject_Z (Z.of_nat n).

(** ** Score aggregation *)

Module Aggregate.

(** [model.get("window")]: absent, an [int] or a [float]. *)
Inductive window_setting : Type :=
| NoWindow
| IntWindow (w : Z)
| FloatWindow (span : Q).

(** The ['score_aggregation'] dictionary, as far as this function reads it. *)
Record model : Type :=
  mk_model { point_threshold : option Q; window : window_setting }.

(** A column is numeric, or boolean after binarization. *)
Inductive column : Type :=
| FloatCol (l : list cell)
| BoolCol (l : list bool).

Definition as_float (c : column) : list cell :=
  match c with
  | FloatCol l => l
  | BoolCol l => map of_bool l
  end.

Definition csum (l : list cell) : cell := fold_left add l (Num 0).

(** [mean(skipna=True, axis=1)] on one row of the selected columns. *)
Definition row_mean (r : list cell) : cell :=
  let present := filter (fun c => negb (isnull c)) r in
  match present with
  | [] => NaN
  | _ :: _ => div (csum present) (Num (Qnat (length present)))
  end.

(** Truthiness of [model.get("point_threshold")]: [None] and [0.0] are false. *)
Definition threshold_given (t : option Q) : bool :=
  match t with
  | None => false
  | Some q => negb (Qeq_bool q 0)
  end.

(** Rolling windows count finite values only: infinities are turned
    into NaN before the window functions run. *)
Definition observed (c : cell) : bool :=
  match c with Num _ => true | _ => false end.

(** The points of the window of size [w] that ends at position [i]. *)
Definition window_at (w : nat) (l : list cell) (i : nat) : list cell :=
  let first := (S i - w)%nat in
  firstn (S i - first) (skipn first l).

Definition rolling_mean_at (w min_periods : nat) (l : list cell) (i : nat) : cell :=
  let obs := filter observed (window_at w l i) in
  let nobs := length obs in
  if ((min_periods <=? nobs) && (0 <? nobs))%nat
  then div (csum obs) (Num (Qnat nobs))
  else NaN.

(** [rolling(window, min_periods=...).mean()] *)
Definition rolling_mean (window min_periods : Z) (l : list cell) : result (list cell) :=
  if (window <? 0)%Z
  then Raise (ValueError "window must be an integer 0 or greater")
  else if (window <? min_periods)%Z
  then Raise (ValueError "min_periods must be <= window")
  else Ok (map (rolling_mean_at (Z.to_nat window) (Z.to_nat min_periods) l)
               (seq 0 (length l))).

(** Lines 45 to 51 of [aggregate_scores]: the mean of every row, then
    binarized if [point_threshold] is truthy. *)
Definition score_before_smoothing (df : list (list cell)) (point_threshold : option Q)
  : column :=
  let score_column := FloatCol (map row_mean df) in
  if threshold_given point_threshold
  then match point_threshold with
       | Some t => BoolCol (map (fun c => ge c (Num t)) (as_float score_column))
       | None => score_column
       end
  else score_column.

Section WithEwm.

(** [ewm(span, min_periods, adjust=False).mean()] of pandas, which no
    property below depends on. *)
Variable ewm_mean : Q -> Q -> list cell -> result (list cell).

(** [aggregate_scores]: [df] holds, per timestamp, the values of the
    selected [score_columns]; the result is the column stored under
    [score_column_out] and returned. *)
Definition aggregate_scores (df : list (list cell)) (m : option model) : result column :=
  match m with
  | None =>
      Raise (ValueError "Configuration must specify 'score_aggregation' parameters")
  | Some m =>
      let point_threshold := point_threshold m in
      let window := window m in
      let score_column := score_before_smoothing df point_threshold in
      match window with
      | IntWindow w =>
          let* r := rolling_mean w (w / 2)%Z (as_float score_column) in
          Ok (FloatCol r)
      | FloatWindow span =>
          let* r := ewm_mean span (inject_Z (Qfloor (span / 2))) (as_float score_column) in
          Ok (FloatCol r)
      | NoWindow => Ok score_column
      end
  end.

End WithEwm.

(** Number of non-missing points of a window. *)
Definition present_count (l : list cell) : nat :=
  length (filter (fun c => negb (isnull c)) l).

Definition finite_or_missing (c : cell) : Prop :=
  match c with Num _ | NaN => True | PInf | NInf => False end.

End Aggregate.

(** ** Backtest simulator *)

Module Backtest.

(** A recorded transaction [(index, is_buy_mode, price, profit, profit_percent)]. *)
Record trade : Type :=
  mk_trade { t_index : Z; t_mode : bool; t_price : cell;
             t_profit : cell; t_profit_percent : cell }.

(** The local variables of [simulated_trade_performance]. *)
Record state : Type :=
  mk_state { is_buy_mode : bool;
             long_profit : cell;
             long_profit_percent : cell;
             long_transactions : nat;
             long_profitable : nat;
             longs : list trade;
             short_profit : cell;
             short_profit_percent : cell;
             short_transactions : nat;
             short_profitable : nat;
             shorts : list trade }.

Definition init : state :=
  mk_state true (Num 0) (Num 0) 0 0 [] (Num 0) (Num 0) 0 0 [].

(** One tuple of [df.itertuples]: index, sell signal, buy signal, price. *)
Record tick : Type :=
  mk_tick { index : Z; sell_signal : bool; buy_signal : bool; price : cell }.

(** [lst[-1][2] if len(lst) > 0 else 0.0] *)
Definition last_price (l : list trade) : cell :=
  match rev l with
  | [] => Num 0
  | t :: _ => t_price t
  end.

(** The body of the loop. *)
Definition step (s : state) (r : tick) : state :=
  let price := price r in
  if negb (truthy price) || isnull price then s
  else if is_buy_mode s then
    if buy_signal r then
      let previous_price := last_price (shorts s) in
      let profit :=
        if gt previous_price (Num 0) then sub previous_price price else Num 0 in
      let profit_percent :=
        if gt previous_price (Num 0)
        then div (mul (Num 100) profit) previous_price else Num 0 in
      mk_state false
               (long_profit s) (long_profit_percent s)
               (long_transactions s) (long_profitable s)
               (longs s ++ [mk_trade (index r) (is_buy_mode s) price profit profit_percent])
               (add (short_profit s) profit)
               (add (short_profit_percent s) profit_percent)
               (S (short_transactions s))
               (if gt profit (Num 0) then S (short_profitable s) else short_profitable s)
               (shorts s)
    else s
  else
    if sell_signal r then
      let previous_price := last_price (longs s) in
      let profit :=
        if gt previous_price (Num 0) then sub price previous_price else Num 0 in
      let profit_percent :=
        if gt previous_price (Num 0)
        then div (mul (Num 100) profit) previous_price else Num 0 in
      mk_state true
               (add (long_profit s) profit)
               (add (long_profit_percent s) profit_percent)
               (S (long_transactions s))
               (if gt profit (Num 0) then S (long_profitable s) else long_profitable s)
               (longs s)
               (short_profit s) (short_profit_percent s)
               (short_transactions s) (short_profitable s)
               (shorts s ++ [mk_trade (index r) (is_buy_mode s) price profit profit_percent])
    else s.

Definition run (df : list tick) : state := fold_left step df init.

(** The dictionaries returned for one side and for both sides. *)
Record side_performance : Type :=
  mk_side { sp_profit : cell; sp_profit_percent : cell; sp_transaction_no : nat;
            sp_profitable : Q; sp_transactions : list trade }.

Record performance : Type :=
  mk_perf { p_profit : cell; p_profit_percent : cell; p_transaction_no : nat;
            p_profitable : Q; p_profit_per_transaction : cell;
            p_profitable_percent : Q }.

Definition ratio (n d : nat) : Q :=
  match d with
  | O => 0
  | S _ => Qnat n / Qnat d
  end.

Definition report (s : state) : performance * side_performance * side_performance :=
  let long_performance :=
    mk_side (long_profit s) (long_profit_percent s) (long_transactions s)
            (ratio (long_profitable s) (long_transactions s)) (longs s) in
  let short_performance :=
    mk_side (short_profit s) (short_profit_percent s) (short_transactions s)
            (ratio (short_profitable s) (short_transactions s)) (shorts s) in
  let profit := add (long_profit s) (short_profit s) in
  let profit_percent := add (long_profit_percent s) (short_profit_percent s) in
  let transaction_no := (long_transactions s + short_transactions s)%nat in
  let profitable :=
    ratio (long_profitable s + short_profitable s) transaction_no in
  let performance :=
    mk_perf profit profit_percent transaction_no profitable
            (match transaction_no with
             | O => Num 0
             | S _ => div profit (Num (Qnat transaction_no))
             end)
            (match transaction_no with
             | O => 0
             | S _ => 100 * profitable / Qnat transaction_no
             end) in
  (performance, long_performance, short_performance).

(** [simulated_trade_performance] *)
Definition simulated_trade_performance (df : list tick)
  : performance * side_performance * side_performance :=
  report (run df).

(** A row the loop acts upon: the price is present and not zero. *)
Definition priced (r : tick) : bool :=
  truthy (price r) && negb (isnull (price r)).

End Backtest.

(** ** Interval precision evaluator *)

Module Intervals.

(** One point: the boolean label and the score. *)
Record point_row : Type := mk_point { label : bool; score : cell }.

(** One row of the output frame. *)
Record interval : Type :=
  mk_interval { interval_no : Z; interval_label : bool; interval_score : bool }.

(** [Series.diff()] of a boolean column: exclusive or with the previous
    element, NaN (here [None]) in the first position. *)
Definition diff (l : list bool) : list (option bool) :=
  match l with
  | [] => []
  | _ :: tl => None :: map Some (zip_with xorb tl l)
  end.

(** [out.iloc[0] = False] *)
Definition set_iloc0 (v : option bool) (l : list (option bool)) : result (list (option bool)) :=
  match l with
  | [] => Raise IndexError
  | _ :: tl => Ok (v :: tl)
  end.

(** [astype(int)]: a NaN cannot be converted. *)
Fixpoint astype_int (l : list (option bool)) : result (list Z) :=
  match l with
  | [] => Ok []
  | None :: _ => Raise (ValueError "cannot convert float NaN to integer")
  | Some b :: tl =>
      let* r := astype_int tl in Ok ((if b then 1%Z else 0%Z) :: r)
  end.

Fixpoint cumsum_from (acc : Z) (l : list Z) : list Z :=
  match l with
  | [] => []
  | x :: tl => (acc + x)%Z :: cumsum_from (acc + x)%Z tl
  end.

Definition cumsum (l : list Z) : list Z := cumsum_from 0%Z l.

(** Distinct keys in increasing order, as [groupby] lists its groups. *)
Fixpoint insert_key (k : Z) (ks : list Z) : list Z :=
  match ks with
  | [] => [k]
  | h :: tl =>
      if (k <? h)%Z then k :: ks
      else if (k =? h)%Z then ks
      else h :: insert_key k tl
  end.

Definition group_keys (keys : list Z) : list Z := fold_right insert_key [] keys.

(** [groupby]: for every distinct key, the rows that carry it, in row order. *)
Definition groupby {A : Type} (keys : list Z) (rows : list A) : list (Z * list A) :=
  map (fun k =>
         (k, map snd (filter (fun kr => (fst kr =? k)%Z) (combine keys rows))))
      (group_keys keys).

(** [max] of a group of booleans. *)
Definition bool_max (l : list bool) : bool := fold_right orb false l.

(** [find_interval_precision] *)
Definition find_interval_precision (df : list point_row) (threshold : Q)
  : result (list interval) :=
  let out := diff (map label df) in
  let* out := set_iloc0 (Some false) out in
  let* out := astype_int out in
  let interval_no_column := cumsum out in
  let greater_than_threshold := map (fun r => ge (score r) (Num threshold)) df in
  let by_interval :=
    groupby interval_no_column (combine (map label df) greater_than_threshold) in
  Ok (map (fun g => mk_interval (fst g)
                                (bool_max (map fst (snd g)))
                                (bool_max (map snd (snd g))))
          by_interval).

(** *** The evaluator as the specification words it *)

(** Maximal runs of identical label values, in order. *)
Fixpoint runs (df : list point_row) : list (list point_row) :=
  match df with
  | [] => []
  | x :: tl =>
      match runs tl with
      | (y :: ys) :: rs =>
          if Bool.eqb (label x) (label y)
          then (x :: y :: ys) :: rs
          else [x] :: (y :: ys) :: rs
      | _ => [[x]]
      end
  end.

Definition run_label (r : list point_row) : bool :=
  match r with
  | [] => false
  | x :: _ => label x
  end.

Definition run_fires (threshold : Q) (r : list point_row) : bool :=
  existsb (fun p => ge (score p) (Num threshold)) r.

(** One interval per run, numbered from [n] upwards. *)
Fixpoint number_runs (threshold : Q) (n : Z) (rs : list (list point_row)) : list interval :=
  match rs with
  | [] => []
  | r :: tl =>
      mk_interval n (run_label r) (run_fires threshold r)
        :: number_runs threshold (n + 1)%Z tl
  end.

Definition evaluate (df : list point_row) (threshold : Q) : list interval :=
  number_runs threshold 0%Z (runs df).

(** All labels of a run agree. *)
Definition uniform (r : list point_row) : Prop :=
  r <> [] /\ Forall (fun p => label p = run_label r) r.

(** Neighbouring runs carry different labels, so every run is maximal. *)
Fixpoint alternating (rs : list (list point_row)) : Prop :=
  match rs with
  | r1 :: ((r2 :: _) as tl) => run_label r1 <> run_label r2 /\ alternating tl
  | _ => True
  end.

End Intervals.

(** ** Depth discretizer *)

Module Depth.

(** A point [[price, volume]] of the accumulated curve. *)
Definition point : Type := (Q * Q)%type.

(** The local variable [prev_point]: not yet assigned, [None], or a point. *)
Inductive pyvar : Type :=
| Unbound
| PyNone
| Bound (p : point).

(** The value of [price_increase] after the first [if]; with any other
    side a message is printed and the variable stays unassigned. *)
Definition price_increase_of (side : string) : option bool :=
  if (String.prefix "ask" side || String.prefix "sell" side)%bool then Some true
  else if (String.eqb side "bid" || String.eqb side "buy")%bool then Some false
  else None.

(** [bin_start <= x[0] < bin_end], or [bin_end < x[0] <= bin_start]. *)
Definition in_bin (price_increase : bool) (bin_start bin_end : Q) (x : point) : bool :=
  if price_increase
  then Qle_bool bin_start (fst x) && Qlt_bool (fst x) bin_end
  else Qlt_bool bin_end (fst x) && Qle_bool (fst x) bin_start.

Definition enumerate {A : Type} (l : list A) : list (nat * A) :=
  combine (seq 0 (List.length l)) l.

Definition bin_point_ids (price_increase : bool) (bin_start bin_end : Q)
    (depth : list point) : list nat :=
  map fst (filter (fun ix => in_bin price_increase bin_start bin_end (snd ix))
                  (enumerate depth)).

Definition list_min (d : nat) (l : list nat) : nat :=
  match l with
  | [] => d
  | x :: tl => fold_left Nat.min tl x
  end.

Definition list_max (d : nat) (l : list nat) : nat :=
  match l with
  | [] => d
  | x :: tl => fold_left Nat.max tl x
  end.

(** [[depth[i] for i in range(first, last + 1)]] *)
Definition points_range (depth : list point) (first last : nat) : list point :=
  firstn (S last - first) (skipn first depth).

(** [prev_point[1] if prev_point else 0.0] *)
Definition volume_or_zero (prev_point : pyvar) : result Q :=
  match prev_point with
  | Unbound => Raise UnboundLocalError
  | PyNone => Ok 0
  | Bound p => Ok (snd p)
  end.

(** The variables updated by the loop over the points of one bin. *)
Record cursor : Type :=
  mk_cursor { prev_price : Q; prev_volume : Q; bin_volume : Q; prev_point : pyvar }.

(** One iteration of the loop over the points of a bin. *)
Definition visit (bin_size : Q) (c : cursor) (p : point) : cursor :=
  let price := fst p in
  let price_delta := Qabs (price - prev_price c) in
  let price_coeff := price_delta / bin_size in
  mk_cursor (fst p) (snd p) (bin_volume c + prev_volume c * price_coeff) (Bound p).

(** The contribution up to the end of the bin. *)
Definition close_bin (bin_size bin_end : Q) (c : cursor) : Q :=
  let price := bin_end in
  let price_delta := Qabs (price - prev_price c) in
  let price_coeff := price_delta / bin_size in
  bin_volume c + prev_volume c * price_coeff.

(** The body of the loop over the bins, for bin [b]: the volume appended
    to [bin_volumes] and the value [prev_point] is left with. *)
Definition bin_body (price_increase : bool) (depth : list point) (bin_size start : Q)
    (prev_point : pyvar) (b : nat) : result (Q * pyvar) :=
  let bin_start :=
    if price_increase then start + Qnat b * bin_size else start - Qnat b * bin_size in
  let bin_end :=
    if price_increase then bin_start + bin_size else bin_start - bin_size in
  let ids := bin_point_ids price_increase bin_start bin_end depth in
  match ids with
  | [] =>
      let* prev_volume := volume_or_zero prev_point in
      Ok (close_bin bin_size bin_end (mk_cursor bin_start prev_volume 0 prev_point),
          prev_point)
  | _ :: _ =>
      let first_point_id := list_min 0 ids in
      let last_point_id := list_max 0 ids in
      let* prev_point :=
        if (1 <=? first_point_id)%nat
        then match nth_error depth (first_point_id - 1) with
             | Some p => Ok (Bound p)
             | None => Raise IndexError
             end
        else Ok PyNone in
      let* prev_volume := volume_or_zero prev_point in
      let c :=
        fold_left (visit bin_size)
                  (points_range depth first_point_id last_point_id)
                  (mk_cursor bin_start prev_volume 0 prev_point) in
      Ok (close_bin bin_size bin_end c, Depth.prev_point c)
  end.

(** The loop over [range(bin_count)], threading [prev_point]. *)
Fixpoint bins_loop (body : pyvar -> nat -> result (Q * pyvar))
    (bins : list nat) (prev_point : pyvar) : result (list Q) :=
  match bins with
  | [] => Ok []
  | b :: tl =>
      let* vp := body prev_point b in
      let* rest := bins_loop body tl (snd vp) in
      Ok (fst vp :: rest)
  end.

(** [depth[0][0]] and [depth[-1][0]] *)
Definition first_price (depth : list point) : result Q :=
  match depth with
  | [] => Raise IndexError
  | p :: _ => Ok (fst p)
  end.

Definition last_price (depth : list point) : result Q :=
  match rev depth with
  | [] => Raise IndexError
  | p :: _ => Ok (fst p)
  end.

(** [int(abs(last - start) // bin_size) + 1] *)
Definition bin_count_of (last start bin_size : Q) : result Z :=
  if Qeq_bool bin_size 0 then Raise ZeroDivisionError
  else Ok (Qfloor (Qabs (last - start) / bin_size) + 1)%Z.

(** [start] after [if start is None: start = depth[0][0]] *)
Definition start_or_first (start : option Q) (depth : list point) : result Q :=
  match start with
  | None => first_price depth
  | Some s => Ok s
  end.

(** [discretize] *)
Definition discretize (side : string) (depth : list point) (bin_size : Q)
    (start : option Q) : result (list Q) :=
  let price_increase := price_increase_of side in
  let* start := start_or_first start depth in
  let* last := last_price depth in
  let* bin_count := bin_count_of last start bin_size in
  match price_increase with
  | None => Raise UnboundLocalError
  | Some price_increase =>
      bins_loop (bin_body price_increase depth bin_size start)
                (seq 0 (Z.to_nat bin_count)) Unbound
  end.

(** *** The input curve as a step function *)

(** Area below the step function that holds [volume] from [price] on,
    jumps at every point of [pts] and is cut at [end_]. *)
Fixpoint step_area (price volume : Q) (pts : list point) (end_ : Q) : Q :=
  match pts with
  | [] => volume * Qabs (end_ - price)
  | p :: tl => volume * Qabs (fst p - price) + step_area (fst p) (snd p) tl end_
  end.



(** Prices run upwards for asks and downwards for bids. *)
Definition ordered (price_increase : bool) (x y : Q) : Prop :=
  if price_increase then x <= y else y <= x.

Fixpoint sorted_from (price_increase : bool) (x : Q) (pts : list point) : Prop :=
  match pts with
  | [] => True
  | p :: tl => ordered price_increase x (fst p) /\ sorted_from price_increase (fst p) tl
  end.


End Depth.

(** ** The depth discretizer in binary64 arithmetic *)

(** Python's [float] is IEEE 754 binary64.  A finite float is the rational
    it denotes, and an operation returns the exact result rounded to the
    nearest float, ties to the even significand.  Only the range of the
    normal numbers is modelled: no overflow, no subnormal numbers. *)
Module Binary64.

Definition pow2 (e : Z) : Q :=
  if (0 <=? e)%Z then inject_Z (2 ^ e) else 1 # Z.to_pos (2 ^ (- e)).

(** The nearest integer, the even one at a tie. *)
Definition nearest_even (q : Q) : Z :=
  let f := Qfloor q in
  match Qcompare (q - inject_Z f) (1 # 2) with
  | Lt => f
  | Gt => (f + 1)%Z
  | Eq => if Z.even f then f else (f + 1)%Z
  end.

(** The exponent [e] of the last place of [q > 0]: [2^52 <= q / 2^e < 2^53]. *)
Definition exponent (q : Q) : Z :=
  let e := (Z.log2 (Qnum q) - Z.log2 (Zpos (Qden q)) - 52)%Z in
  if Qlt_bool (q / pow2 e) (inject_Z (2 ^ 52)) then (e - 1)%Z
  else if Qle_bool (inject_Z (2 ^ 53)) (q / pow2 e) then (e + 1)%Z
  else e.

(** Rounding to 53 significant bits. *)
Definition round (q : Q) : Q :=
  if Qeq_bool q 0 then 0
  else
    let e := exponent (Qabs q) in
    let m := nearest_even (Qabs q / pow2 e) in
    Qred ((if Qlt_bool q 0 then - inject_Z m else inject_Z m) * pow2 e).

(** The float a decimal literal denotes. *)
Definition literal (q : Q) : Q := round q.

Definition fadd (x y : Q) : Q := round (x + y).
Definition fsub (x y : Q) : Q := round (x - y).
Definition fmul (x y : Q) : Q := round (x * y).
Definition fdiv (x y : Q) : Q := round (x / y).

(** [int(x // y)] for [y <> 0]: float floor division returns the floor of
    the exact quotient of the two floats, as a float; that integer is
    exact below [2^53]. *)
Definition floordiv_int (x y : Q) : Z := Qfloor (x / y).

(** [float(b)] of a small non-negative integer is exact. *)
Definition of_nat (b : nat) : Q := round (Qnat b).

End Binary64.

Module DepthFloat.
Import Depth Binary64.

(** One iteration of the loop over the points of a bin. *)
Definition visit (bin_size : Q) (c : cursor) (p : point) : cursor :=
  let price := fst p in
  let price_delta := Qabs (fsub price (prev_price c)) in
  let price_coeff := fdiv price_delta bin_size in
  mk_cursor (fst p) (snd p)
            (fadd (bin_volume c) (fmul (prev_volume c) price_coeff)) (Bound p).

(** The contribution up to the end of the bin. *)
Definition close_bin (bin_size bin_end : Q) (c : cursor) : Q :=
  let price := bin_end in
  let price_delta := Qabs (fsub price (prev_price c)) in
  let price_coeff := fdiv price_delta bin_size in
  fadd (bin_volume c) (fmul (prev_volume c) price_coeff).

(** The body of the loop over the bins: [bin_start] is computed from
    [start] and [b], [bin_end] from [bin_start]. *)
Definition bin_body (price_increase : bool) (depth : list point) (bin_size start : Q)
    (prev_point : pyvar) (b : nat) : result (Q * pyvar) :=
  let bin_start :=
    if price_increase
    then fadd start (fmul (of_nat b) bin_size)
    else fsub start (fmul (of_nat b) bin_size) in
  let bin_end :=
    if price_increase then fadd bin_start bin_size else fsub bin_start bin_size in
  let ids := bin_point_ids price_increase bin_start bin_end depth in
  match ids with
  | [] =>
      let* prev_volume := volume_or_zero prev_point in
      Ok (close_bin bin_size bin_end (mk_cursor bin_start prev_volume 0 prev_point),
          prev_point)
  | _ :: _ =>
      let first_point_id := list_min 0 ids in
      let last_point_id := list_max 0 ids in
      let* prev_point :=
        if (1 <=? first_point_id)%nat
        then match nth_error depth (first_point_id - 1) with
             | Some p => Ok (Bound p)
             | None => Raise IndexError
             end
        else Ok PyNone in
      let* prev_volume := volume_or_zero prev_point in
      let c :=
        fold_left (visit bin_size)
                  (points_range depth first_point_id last_point_id)
                  (mk_cursor bin_start prev_volume 0 prev_point) in
      Ok (close_bin bin_size bin_end c, Depth.prev_point c)
  end.

(** [int(abs(last - start) // bin_size) + 1] *)
Definition bin_count_of (last start bin_size : Q) : result Z :=
  if Qeq_bool bin_size 0 then Raise ZeroDivisionError
  else Ok (floordiv_int (Qabs (fsub last start)) bin_size + 1)%Z.

(** [discretize], every arithmetic operation rounded. *)
Definition discretize (side : string) (depth : list point) (bin_size : Q)
    (start : option Q) : result (list Q) :=
  let price_increase := price_increase_of side in
  let* start := start_or_first start depth in
  let* last := last_price depth in
  let* bin_count := bin_count_of last start bin_size in
  match price_increase with
  | None => Raise UnboundLocalError
  | Some price_increase =>
      bins_loop (bin_body price_increase depth bin_size start)
                (seq 0 (Z.to_nat bin_count)) Unbound
  end.

End DepthFloat.

(** ** Order book helpers of [common/utils.py] *)

Module Book.

(** One order [[price, volume]] of a side of the book. *)
Definition order : Type := (Q * Q)%type.

(** [depth_accumulate]: every volume becomes the sum of the volumes up to
    it; the list is updated in place and returned.  The arguments [start]
    and [end] are not read. *)
Fixpoint accumulate_from (prev_value : Q) (depth : list order) : list order :=
  match depth with
  | [] => []
  | point :: tl =>
      let volume := snd point + prev_value in
      (fst point, volume) :: accumulate_from volume tl
  end.

Definition depth_accumulate (depth : list order) (start end_ : option Q) : list order :=
  accumulate_from 0 depth.

(** The depth dictionary: the keys ["bids"] and ["asks"] may be absent. *)
Record depth_data : Type :=
  mk_depth { bids : option (list order); asks : option (list order) }.

(** [depth.get(key, [])] *)
Definition get_orders (o : option (list order)) : list order :=
  match o with
  | Some l => l
  | None => []
  end.

(** [orders[-1]] *)
Definition last_order (orders : list order) : result order :=
  match rev orders with
  | [] => Raise IndexError
  | o :: _ => Ok o
  end.

(** [price_to_volume]; the result [None] is Python's [None]. *)
Definition price_to_volume (side : string) (depth : depth_data) (price_limit : Q)
  : result (option Q) :=
  if String.eqb side "buy" then
    let orders := get_orders (asks depth) in
    let orders := filter (fun o => Qle_bool (fst o) price_limit) orders in
    let* o := last_order orders in
    Ok (Some (snd o))
  else if String.eqb side "sell" then
    let orders := get_orders (bids depth) in
    let orders := filter (fun o => Qle_bool price_limit (fst o)) orders in
    let* o := last_order orders in
    Ok (Some (snd o))
  else Ok None.

(** [volume_to_price] *)
Definition volume_to_price (side : string) (depth : depth_data) (volume_limit : Q)
  : result (option Q) :=
  let orders :=
    if String.eqb side "buy" then Some (get_orders (asks depth))
    else if String.eqb side "sell" then Some (get_orders (bids depth))
    else None in
  match orders with
  | None => Ok None
  | Some orders =>
      let orders := filter (fun o => Qle_bool (snd o) volume_limit) orders in
      let* o := last_order orders in
      Ok (Some (fst o))
  end.

(** The orders of the side a trade of the given kind would consume. *)
Definition side_orders (side : string) (depth : depth_data) : option (list order) :=
  if String.eqb side "buy" then Some (get_orders (asks depth))
  else if String.eqb side "sell" then Some (get_orders (bids depth))
  else None.

(** Whether an order lies within the price limit of the side. *)
Definition within_limit (side : string) (price_limit : Q) (o : order) : bool :=
  if String.eqb side "buy" then Qle_bool (fst o) price_limit
  else Qle_bool price_limit (fst o).

End Book.

(** ** Depth features of [common/utils.py] and [common/feature_generation.py] *)

Module Features.
Import Depth.

(** A value stored in a feature record: the integer timestamp or a float. *)
Inductive value : Type :=
| VInt (z : Z)
| VFloat (c : cell).

(** A Python dictionary with string keys, in insertion order. *)
Definition dict : Type := list (string * value).

Fixpoint dict_get (d : dict) (k : string) : option value :=
  match d with
  | [] => None
  | (k', v) :: tl => if String.eqb k' k then Some v else dict_get tl k
  end.

(** [d[k] = v]: an existing key keeps its place. *)
Fixpoint dict_set (d : dict) (k : string) (v : value) : dict :=
  match d with
  | [] => [(k, v)]
  | (k', v') :: tl =>
      if String.eqb k' k then (k', v) :: tl else (k', v') :: dict_set tl k v
  end.

(** [d.update(other)] *)
Definition dict_update (d other : dict) : dict :=
  fold_left (fun acc kv => dict_set acc (fst kv) (snd kv)) other d.

(** [str(n)] of an integer. *)
Definition str_of_int (n : Z) : string := DecimalString.NilZero.string_of_int (Z.to_int n).

(** [l[0:stop]]: a negative [stop] counts from the end. *)
Definition slice_to {A : Type} (l : list A) (stop : Z) : list A :=
  if (stop <? 0)%Z
  then firstn (Z.to_nat (Z.of_nat (List.length l) + stop)) l
  else firstn (Z.to_nat stop) l.

(** [np.nanmean] of a list of finite floats: NaN for the empty list. *)
Definition nanmean (l : list Q) : cell :=
  match l with
  | [] => NaN
  | _ :: _ => Num (Qsum l / Qnat (List.length l))
  end.

(** One depth entry; the keys ["bids"], ["asks"] and ["timestamp"] are
    taken to be present. *)
Record entry : Type :=
  mk_entry { timestamp : Z; bids : list point; asks : list point }.

(** The density over the first [length] bins. *)
Definition density (volumes : list Q) (length : Z) : cell :=
  nanmean (slice_to volumes (Z.min length (Z.of_nat (List.length volumes)))).

(** [mean_volumes] *)
Definition mean_volumes (depth : entry) (windows : list Z) (bin_size : Q) : result dict :=
  let* bid_volumes := discretize "bid" (bids depth) bin_size None in
  let* ask_volumes := discretize "ask" (asks depth) bin_size None in
  Ok (fold_left
        (fun ret length =>
           let ret :=
             dict_set ret ("bids_" ++ str_of_int length)%string
                      (VFloat (density bid_volumes length)) in
           dict_set ret ("asks_" ++ str_of_int length)%string
                    (VFloat (density ask_volumes length)))
        windows []).

(** [l[0][0]] *)
Definition best_price (l : list point) : result Q :=
  match l with
  | [] => Raise IndexError
  | p :: _ => Ok (fst p)
  end.

(** [depth_to_features] *)
Definition depth_to_features (e : entry) (windows : list Z) (bin_size : Q) : result dict :=
  let bids := bids e in
  let asks := asks e in
  let timestamp := timestamp e in
  let* best_ask := best_price asks in
  let* best_bid := best_price bids in
  let gap := best_ask - best_bid in
  let gap := if Qlt_bool gap 0 then 0 else gap in
  let price := best_bid + gap / 2 in
  let* densities := mean_volumes e windows bin_size in
  let record :=
    [("timestamp"%string, VInt timestamp); ("gap"%string, VFloat (Num gap));
     ("price"%string, VFloat (Num price))] in
  Ok (dict_update record densities).

End Features.

(** ** Threshold features of [common/feature_generation.py] *)

Module Threshold.
Import Aggregate.

(** Errors of a frame with named columns: a built-in error or a missing
    column. *)
Inductive error : Type :=
| Builtin (e : exn)
| KeyError (key : string).

Inductive outcome (A : Type) : Type :=
| Done (a : A)
| Failed (e : error).

Arguments Done {A} a.
Arguments Failed {A} e.

(** A data frame: its columns by name, in insertion order. *)
Definition frame : Type := list (string * column).

Fixpoint get (df : frame) (name : string) : option column :=
  match df with
  | [] => None
  | (k, c) :: tl => if String.eqb k name then Some c else get tl name
  end.

(** [df[name] = c] *)
Fixpoint set (df : frame) (name : string) (c : column) : frame :=
  match df with
  | [] => [(name, c)]
  | (k, c') :: tl =>
      if String.eqb k name then (k, c) :: tl else (k, c') :: set tl name c
  end.

(** The comparison chosen for one threshold. *)
Definition threshold_flags (values : list cell) (threshold : Q) : list bool :=
  if Qlt_bool 0 threshold then
    if Qle_bool (3 # 4) (Qabs threshold)
    then map (fun x => ge x (Num threshold)) values
    else map (fun x => le x (Num threshold)) values
  else
    if Qle_bool (3 # 4) (Qabs threshold)
    then map (fun x => le x (Num threshold)) values
    else map (fun x => ge x (Num threshold)) values.

(** The loop of [add_threshold_feature] from position [i] on: the frame as
    the loop leaves it, also when it fails on the way. *)
Fixpoint threshold_loop (df : frame) (column_name : string) (i : nat)
    (thresholds : list Q) (out_names : list string) : frame * outcome unit :=
  match thresholds with
  | [] => (df, Done tt)
  | threshold :: tl =>
      match nth_error out_names i with
      | None => (df, Failed (Builtin IndexError))
      | Some out_name =>
          match get df column_name with
          | None => (df, Failed (KeyError column_name))
          | Some c =>
              threshold_loop
                (set df out_name (BoolCol (threshold_flags (as_float c) threshold)))
                column_name (S i) tl out_names
          end
      end
  end.

(** [add_threshold_feature] *)
Definition add_threshold_feature (df : frame) (column_name : string)
    (thresholds : list Q) (out_names : list string) : frame * outcome (list string) :=
  match threshold_loop df column_name 0 thresholds out_names with
  | (df', Done _) => (df', Done out_names)
  | (df', Failed e) => (df', Failed e)
  end.

End Threshold.

(** ** Time intervals and decimals of [common/utils.py] *)

Module Clock.

(** The argument [timestamp]: absent, or milliseconds since the epoch. *)
Inductive timestamp_arg : Type :=
| NoTimestamp
| Millis (ms : Z).

(** What [get_interval] can raise: a built-in exception, the
    [OutOfBoundsDatetime] of pandas, or [OverflowError]. *)
Inductive error : Type :=
| Builtin (e : exn)
| OutOfBoundsDatetime
| OverflowError.

Inductive outcome (A : Type) : Type :=
| Done (a : A)
| Failed (e : error).

Arguments Done {A} a.
Arguments Failed {A} e.

Definition and_then {A B : Type} (r : outcome A) (k : A -> outcome B) : outcome B :=
  match r with
  | Done a => k a
  | Failed e => Failed e
  end.

(** A pandas [Timestamp] counts nanoseconds in 64 bits: the milliseconds
    it can hold. *)
Definition max_millis : Z := 9223372036854.

(** [datetime.min] and [datetime.max], in whole seconds since the epoch. *)
Definition datetime_min : Z := -62135596800.
Definition datetime_max : Z := 253402300799.

(** [pd.to_datetime(timestamp, unit='ms').to_pydatetime()], in whole
    seconds once [replace(microsecond=0)] has run. *)
Definition to_datetime (ms : Z) : outcome Z :=
  if (Z.abs ms <=? max_millis)%Z then Done (ms / 1000)%Z
  else Failed OutOfBoundsDatetime.

(** [t + timedelta(seconds=d)] *)
Definition plus_seconds (t d : Z) : outcome Z :=
  if ((datetime_min <=? t + d) && (t + d <=? datetime_max))%Z
  then Done (t + d)%Z
  else Failed OverflowError.

(** [get_interval].  Times are whole seconds since the epoch, in UTC,
    once [replace(microsecond=0)] has run; [utcnow] is the reading of the
    clock, in whole seconds, used when [timestamp] is falsy.  Clearing the
    field [second] subtracts the seconds past the minute, clearing
    [minute] and [second] those past the hour. *)
Definition get_interval (utcnow : Z) (freq : string) (timestamp : timestamp_arg)
  : outcome (Z * Z) :=
  and_then
    match timestamp with
    | NoTimestamp => Done utcnow
    | Millis ms => if (ms =? 0)%Z then Done utcnow else to_datetime ms
    end
    (fun timestamp =>
  if String.eqb freq "1s" then
    let start := timestamp in
    and_then (plus_seconds timestamp 1) (fun end_ =>
    Done ((start * 1000)%Z, (end_ * 1000)%Z))
  else if String.eqb freq "5s" then
    let reference_timestamp := (timestamp - timestamp mod 60)%Z in
    let now_duration := (timestamp - reference_timestamp)%Z in
    let freq_duration := 5%Z in
    let full_intervals_no := (now_duration / freq_duration)%Z in
    and_then (plus_seconds reference_timestamp (freq_duration * full_intervals_no))
      (fun start =>
    and_then (plus_seconds start freq_duration) (fun end_ =>
    Done ((start * 1000)%Z, (end_ * 1000)%Z)))
  else if String.eqb freq "1m" then
    let timestamp := (timestamp - timestamp mod 60)%Z in
    let start := timestamp in
    and_then (plus_seconds timestamp 60) (fun end_ =>
    Done ((start * 1000)%Z, (end_ * 1000)%Z))
  else if String.eqb freq "1h" then
    let timestamp := (timestamp - timestamp mod 3600)%Z in
    let start := timestamp in
    and_then (plus_seconds timestamp 3600) (fun end_ =>
    Done ((start * 1000)%Z, (end_ * 1000)%Z))
  else Failed (Builtin UnboundLocalError)).

(** Length in milliseconds of the intervals of a frequency the function
    implements. *)
Definition interval_millis (freq : string) : option Z :=
  if String.eqb freq "1s" then Some 1000%Z
  else if String.eqb freq "5s" then Some 5000%Z
  else if String.eqb freq "1m" then Some 60000%Z
  else if String.eqb freq "1h" then Some 3600000%Z
  else None.

(** [to_decimal]: the number written by [str(value)], cut after eight
    decimal places ([ROUND_DOWN]); the result is the integer number of
    units of [1E-8].  [None] stands for [InvalidOperation], raised when the
    result would need more than the 28 digits of the default context. *)
Definition to_decimal (value : Q) : option Z :=
  let n := 8%Z in
  let units := Z.quot (Qnum value * 10 ^ n) (Zpos (Qden value)) in
  if (10 ^ 28 <=? Z.abs units)%Z then None else Some units.

(** The number a result of [to_decimal] stands for. *)
Definition decimal_value (units : Z) : Q := units # 100000000.

End Clock.

(** * Properties *)

(** ** Facts on rationals, cells and columns *)

Lemma Qlt_bool_iff (x y : Q) : Qlt_bool x y = true <-> x < y.
Proof.
  unfold Qlt_bool. rewrite negb_true_iff.
  destruct (Qle_bool y x) eqn:E.
  - apply Qle_bool_iff in E. split; [discriminate | intros H; lra].
  - split; [intros _ | reflexivity].
    destruct (Qlt_le_dec x y) as [H | H]; [exact H |].
    apply Qle_bool_iff in H. congruence.
Qed.

Lemma Qlt_bool_false (x y : Q) : Qlt_bool x y = false <-> y <= x.
Proof.
  unfold Qlt_bool. rewrite negb_false_iff. apply Qle_bool_iff.
Qed.

Lemma Qle_bool_false (x y : Q) : Qle_bool x y = false <-> y < x.
Proof.
  rewrite <- Qlt_bool_iff. unfold Qlt_bool.
  destruct (Qle_bool x y); simpl; split; congruence.
Qed.

Lemma Qopp_opp_eq (x : Q) : - - x = x.
Proof. destruct x as [n d]. unfold Qopp. simpl. now rewrite Z.opp_involutive. Qed.

Lemma neg_involutive (a : cell) : neg (neg a) = a.
Proof. destruct a; simpl; try reflexivity. now rewrite Qopp_opp_eq. Qed.

Lemma zip_with_map {R A B C : Type} (f : A -> B -> C) (g : R -> A) (h : R -> B) (l : list R) :
  zip_with f (map g l) (map h l) = map (fun r => f (g r) (h r)) l.
Proof.
  unfold zip_with. induction l as [| r l IH]; simpl; [reflexivity |].
  now rewrite IH.
Qed.

(** ** Signal rule engine *)

Module RuleFacts.
Import Rule.

(** The rule of one row, written with the strict conjunction of the batch. *)
Definition buy_rule (bt : Q) (r : score_row) : bool :=
  gt (sub (buy_score r) (sell_score r)) (Num 0) && ge (buy_score r) (Num bt).

Definition sell_rule (st : Q) (r : score_row) : bool :=
  gt (sub (sell_score r) (buy_score r)) (Num 0) && ge (sell_score r) (Num st).

Lemma batch_row_wise (df : frame) (bt st : Q) :
  apply_rule_with_score_thresholds df bt st
  = (map (buy_rule bt) df, map (sell_rule st) df).
Proof.
  unfold apply_rule_with_score_thresholds, col.
  rewrite !zip_with_map, !map_map, !zip_with_map. reflexivity.
Qed.

Lemma py_and_andb (x : bool) (y : unit -> bool) : py_and x y = x && y tt.
Proof. now destruct x. Qed.

Lemma one_row_rules (r : score_row) (bt st : Q) :
  apply_rule_with_score_thresholds_one_row r bt st = (buy_rule bt r, sell_rule st r).
Proof.
  unfold apply_rule_with_score_thresholds_one_row. now rewrite !py_and_andb.
Qed.

(** The two differences cannot both be positive. *)
Lemma differences_exclusive (b s : cell) :
  gt (sub b s) (Num 0) && gt (sub s b) (Num 0) = false.
Proof.
  destruct b as [x | | |], s as [y | | |]; try reflexivity.
  unfold gt, sub, lt.
  destruct (Qlt_bool 0 (x - y)) eqn:E1; [| reflexivity].
  destruct (Qlt_bool 0 (y - x)) eqn:E2; [| reflexivity].
  apply Qlt_bool_iff in E1. apply Qlt_bool_iff in E2. lra.
Qed.

Lemma rules_exclusive (bt st : Q) (r : score_row) :
  buy_rule bt r && sell_rule st r = false.
Proof.
  unfold buy_rule, sell_rule.
  pose proof (differences_exclusive (buy_score r) (sell_score r)) as H.
  destruct (gt (sub (buy_score r) (sell_score r)) (Num 0)); [| reflexivity].
  destruct (gt (sub (sell_score r) (buy_score r)) (Num 0)); [discriminate |].
  simpl. now rewrite andb_false_r.
Qed.

(** C3. Mutual exclusivity: whatever the scores of a row are (finite,
    infinite or missing) and whatever the two thresholds, the batch rule
    gives one buy and one sell signal per row and never sets both. *)
Theorem signals_mutually_exclusive (df : frame) (bt st : Q) :
  let signals := apply_rule_with_score_thresholds df bt st in
  List.length (fst signals) = List.length df
  /\ List.length (snd signals) = List.length df
  /\ forall i, nth i (fst signals) false && nth i (snd signals) false = false.
Proof.
  rewrite batch_row_wise. simpl. rewrite !length_map.
  repeat split.
  intros i. revert i. induction df as [| r df IH]; intros [| i]; simpl;
    auto using rules_exclusive.
Qed.

(** C4. Row/batch equivalence: the single-row rule applied to every row
    of a table gives exactly the pairs of booleans that the batch rule
    writes into its two signal columns. *)
Theorem one_row_agrees_with_batch (df : frame) (bt st : Q) :
  map (fun row => apply_rule_with_score_thresholds_one_row row bt st) df
  = combine (fst (apply_rule_with_score_thresholds df bt st))
            (snd (apply_rule_with_score_thresholds df bt st)).
Proof.
  rewrite batch_row_wise. simpl.
  induction df as [| r df IH]; simpl; [reflexivity |].
  now rewrite one_row_rules, IH.
Qed.

End RuleFacts.

(** ** Score combination *)

Module CombineFacts.
Import Combine.

Lemma map_neg_neg (l : list cell) : map neg (map neg l) = l.
Proof.
  induction l as [| a l IH]; simpl; [reflexivity |].
  now rewrite neg_involutive, IH.
Qed.

(** Output of the relative combination on one row. *)
Definition relative_cell (r : score_row) : cell :=
  sub (mul (div (buy_score r) (add (buy_score r) (sell_score r))) (Num 2)) (Num 1).

Lemma relative_row_wise (df : frame) :
  buy_column_out (combine_scores_relative df) = map relative_cell df.
Proof.
  unfold combine_scores_relative, col. simpl.
  rewrite zip_with_map.
  rewrite (zip_with_map div buy_score
             (fun r => add (buy_score r) (sell_score r)) df).
  now rewrite map_map.
Qed.

Lemma relative_missing_iff (r : score_row) :
  nonneg_row r -> (isnull (relative_cell r) = true <-> sum_is_zero r).
Proof.
  unfold nonneg_row, sum_is_zero, relative_cell.
  destruct (buy_score r) as [b | | |], (sell_score r) as [s | | |];
    simpl; try tauto.
  intros [Hb Hs].
  destruct (Qeq_bool (b + s) 0) eqn:E.
  - apply Qeq_bool_iff in E.
    assert (Hb0 : b == 0) by lra.
    unfold scale_inf. rewrite (proj1 (Qeq_alt b 0) Hb0). simpl. tauto.
  - simpl. split; [discriminate |].
    intros H. apply Qeq_bool_iff in H. congruence.
Qed.

Lemma difference_row_wise (df : frame) :
  buy_column_out (combine_scores_difference df)
  = map (fun r => sub (buy_score r) (sell_score r)) df.
Proof.
  unfold combine_scores_difference, col. simpl. apply zip_with_map.
Qed.

(** C8. Sign antisymmetry: on non-negative, non-missing scores both
    combinations store, for every timestamp of the table, a buy value
    that is exactly the negated sell value; the difference combination
    stores the buy score minus the sell score, and the relative
    combination is missing at exactly the rows where the two scores sum
    to zero. *)
Theorem combine_sign_antisymmetry (df : frame) (H : Forall nonneg_row df) :
  buy_column_out (combine_scores_relative df)
    = map neg (sell_column_out (combine_scores_relative df))
  /\ buy_column_out (combine_scores_difference df)
    = map neg (sell_column_out (combine_scores_difference df))
  /\ Forall2 (fun r out => isnull out = true <-> sum_is_zero r)
             df (buy_column_out (combine_scores_relative df))
  /\ Forall2 (fun r out => isnull out = true <-> sum_is_zero r)
             df (sell_column_out (combine_scores_relative df))
  /\ Forall2 (fun r out => out = sub (buy_score r) (sell_score r))
             df (buy_column_out (combine_scores_difference df))
  /\ Forall2 (fun r out => out = neg (sub (buy_score r) (sell_score r)))
             df (sell_column_out (combine_scores_difference df))
  /\ List.length (buy_column_out (combine_scores_relative df)) = List.length df
  /\ List.length (sell_column_out (combine_scores_relative df)) = List.length df
  /\ List.length (buy_column_out (combine_scores_difference df)) = List.length df
  /\ List.length (sell_column_out (combine_scores_difference df)) = List.length df.
Proof.
  split; [| split; [| split; [| split; [| split; [| split]]]]].
  - unfold combine_scores_relative. simpl. now rewrite map_neg_neg.
  - unfold combine_scores_difference. simpl. now rewrite map_neg_neg.
  - rewrite relative_row_wise.
    induction H as [| r df Hr _ IH]; simpl; constructor; auto.
    now apply relative_missing_iff.
  - change (sell_column_out (combine_scores_relative df))
      with (map neg (buy_column_out (combine_scores_relative df))).
    rewrite relative_row_wise.
    induction H as [| r df Hr _ IH]; simpl; constructor; auto.
    rewrite <- (relative_missing_iff r Hr).
    now destruct (relative_cell r).
  - rewrite difference_row_wise. clear H.
    induction df as [| r df IH]; simpl; constructor; [reflexivity | exact IH].
  - change (sell_column_out (combine_scores_difference df))
      with (map neg (buy_column_out (combine_scores_difference df))).
    rewrite difference_row_wise, map_map. clear H.
    induction df as [| r df IH]; simpl; constructor; [reflexivity | exact IH].
  - change (sell_column_out (combine_scores_relative df))
      with (map neg (buy_column_out (combine_scores_relative df))).
    change (sell_column_out (combine_scores_difference df))
      with (map neg (buy_column_out (combine_scores_difference df))).
    rewrite relative_row_wise, difference_row_wise, !length_map. tauto.
Qed.

Lemma combine_sign_antisymmetry_witness :
  let df := [mk_row (Num 3) (Num 1); mk_row (Num 0) (Num 0)] in
  buy_column_out (combine_scores_relative df)
    = map neg (sell_column_out (combine_scores_relative df))
  /\ buy_column_out (combine_scores_difference df)
    = map neg (sell_column_out (combine_scores_difference df))
  /\ Forall2 (fun r out => isnull out = true <-> sum_is_zero r)
             df (buy_column_out (combine_scores_relative df))
  /\ Forall2 (fun r out => isnull out = true <-> sum_is_zero r)
             df (sell_column_out (combine_scores_relative df))
  /\ Forall2 (fun r out => out = sub (buy_score r) (sell_score r))
             df (buy_column_out (combine_scores_difference df))
  /\ Forall2 (fun r out => out = neg (sub (buy_score r) (sell_score r)))
             df (sell_column_out (combine_scores_difference df))
  /\ List.length (buy_column_out (combine_scores_relative df)) = List.length df
  /\ List.length (sell_column_out (combine_scores_relative df)) = List.length df
  /\ List.length (buy_column_out (combine_scores_difference df)) = List.length df
  /\ List.length (sell_column_out (combine_scores_difference df)) = List.length df.
Proof.
  apply combine_sign_antisymmetry.
  repeat constructor; simpl; lra.
Defined.

End CombineFacts.

(** ** Backtest simulator *)

Module BacktestFacts.
Import Backtest.

(** The price is exactly zero or missing. *)
Definition zero_or_missing (c : cell) : Prop :=
  match c with
  | Num q => q == 0
  | NaN => True
  | PInf | NInf => False
  end.

Lemma zero_or_missing_priced (r : tick) :
  zero_or_missing (price r) <-> priced r = false.
Proof.
  unfold priced. destruct (price r) as [q | | |]; simpl;
    try (split; [tauto | discriminate]); try tauto.
  rewrite andb_true_r, negb_false_iff. symmetry. apply Qeq_bool_iff.
Qed.

Lemma step_unpriced (s : state) (r : tick) : priced r = false -> step s r = s.
Proof.
  unfold priced, step. intros H.
  destruct (truthy (price r)), (isnull (price r)); simpl in *;
    try reflexivity; discriminate.
Qed.

Lemma fold_step_filter (df : list tick) (s : state) :
  fold_left step df s = fold_left step (filter priced df) s.
Proof.
  revert s. induction df as [| r df IH]; intros s; simpl; [reflexivity |].
  destruct (priced r) eqn:E; simpl.
  - apply IH.
  - rewrite (step_unpriced s r E). apply IH.
Qed.

(** C10. A row whose price is exactly zero is skipped like a row whose
    price is missing: whatever its signals, the step leaves every
    variable of the simulation as it was, and deleting the row from the
    table changes neither the final state nor the reports. *)
Theorem zero_price_row_is_skipped (s : state) (r : tick)
    (H : zero_or_missing (price r)) :
  step s r = s
  /\ forall before after : list tick,
      run (before ++ r :: after) = run (before ++ after)
      /\ simulated_trade_performance (before ++ r :: after)
         = simulated_trade_performance (before ++ after).
Proof.
  apply zero_or_missing_priced in H.
  split; [now apply step_unpriced |].
  intros before after.
  assert (E : run (before ++ r :: after) = run (before ++ after)).
  { unfold run. rewrite !fold_left_app. simpl.
    now rewrite (step_unpriced _ r H). }
  split; [exact E |].
  unfold simulated_trade_performance. now rewrite E.
Qed.

Lemma zero_price_row_is_skipped_witness :
  let s := step init (mk_tick 1 false true (Num 9)) in
  let r := mk_tick 2 true true (Num 0) in
  step s r = s
  /\ forall before after : list tick,
      run (before ++ r :: after) = run (before ++ after)
      /\ simulated_trade_performance (before ++ r :: after)
         = simulated_trade_performance (before ++ after).
Proof.
  apply zero_price_row_is_skipped. simpl. reflexivity.
Defined.

(** Only rows with a present, non-zero price change the state. *)
Lemma transition_needs_price (s : state) (r : tick) :
  step s r <> s -> priced r = true.
Proof.
  intros H. destruct (priced r) eqn:E; [reflexivity |].
  elim H. now apply step_unpriced.
Qed.

Lemma run_filter_priced (df : list tick) : run df = run (filter priced df).
Proof. apply fold_step_filter. Qed.

End BacktestFacts.

(** ** Score aggregation *)

Module AggregateFacts.
Import Aggregate.

Section WithEwm.

Variable ewm_mean : Q -> Q -> list cell -> result (list cell).

(** With a threshold that is not zero the row means are binarized. *)
Lemma nonzero_threshold_binarizes (df : list (list cell)) (t : Q) :
  ~ t == 0 ->
  aggregate_scores ewm_mean df (Some (mk_model (Some t) NoWindow))
  = Ok (BoolCol (map (fun r => ge (row_mean r) (Num t)) df)).
Proof.
  intros Ht. unfold aggregate_scores, score_before_smoothing. simpl.
  destruct (Qeq_bool t 0) eqn:E.
  - apply Qeq_bool_iff in E. contradiction.
  - simpl. now rewrite map_map.
Qed.

(** C6. With [point_threshold = 0.0] the column is not binarized: a
    single score of one half comes out as one half, although its mean
    reaches the threshold and the binarized value would be 1.0. *)
Theorem zero_threshold_not_binarized :
  aggregate_scores ewm_mean [[Num (1 # 2)]] (Some (mk_model (Some 0) NoWindow))
  = Ok (FloatCol [Num ((0 + (1 # 2)) / Qnat 1)])
  /\ ge (row_mean [Num (1 # 2)]) (Num 0) = true
  /\ (0 + (1 # 2)) / Qnat 1 == 1 # 2.
Proof. repeat split. Qed.

(** *** Moving average *)

Lemma csum_from_num (l : list cell) (a : Q) :
  Forall (fun c => observed c = true) l -> exists q, fold_left add l (Num a) = Num q.
Proof.
  revert a. induction l as [| c l IH]; intros a H; simpl.
  - now exists a.
  - inversion H as [| ? ? Hc Hl]; subst.
    destruct c as [x | | |]; try discriminate. simpl. now apply IH.
Qed.

Lemma Qnat_S_nonzero (n : nat) : Qeq_bool (Qnat (S n)) 0 = false.
Proof.
  destruct (Qeq_bool (Qnat (S n)) 0) eqn:E; [| reflexivity].
  apply Qeq_bool_iff in E. unfold Qnat, Qeq in E. simpl in E. lia.
Qed.

Lemma filter_observed_all (l : list cell) :
  Forall (fun c => observed c = true) (filter observed l).
Proof.
  induction l as [| c l IH]; simpl; [constructor |].
  destruct (observed c) eqn:E; [constructor |]; assumption.
Qed.

(** The mean of the finite points of a window is a number. *)
Lemma mean_of_observed (l : list cell) :
  filter observed l <> [] ->
  exists q, div (csum (filter observed l)) (Num (Qnat (List.length (filter observed l))))
            = Num q.
Proof.
  intros Hne.
  destruct (csum_from_num (filter observed l) 0 (filter_observed_all l)) as [q Hq].
  unfold csum. rewrite Hq.
  destruct (filter observed l) as [| c tl]; [contradiction |].
  change (List.length (c :: tl)) with (S (List.length tl)).
  unfold div. rewrite Qnat_S_nonzero. eauto.
Qed.

Lemma rolling_mean_at_present (w mp : nat) (l : list cell) (i : nat) :
  isnull (rolling_mean_at w mp l i) = false
  <-> (mp <= List.length (filter observed (window_at w l i))
       /\ 0 < List.length (filter observed (window_at w l i)))%nat.
Proof.
  unfold rolling_mean_at.
  destruct (mp <=? _)%nat eqn:E1; simpl.
  - apply Nat.leb_le in E1.
    destruct (0 <? _)%nat eqn:E2.
    + apply Nat.ltb_lt in E2.
      destruct (mean_of_observed (window_at w l i)) as [q Hq].
      { intros H0. rewrite H0 in E2. simpl in E2. lia. }
      rewrite Hq. simpl. tauto.
    + apply Nat.ltb_ge in E2. simpl. split; [discriminate | lia].
  - apply Nat.leb_gt in E1. split; [discriminate | lia].
Qed.

Lemma present_is_observed (l : list cell) :
  Forall finite_or_missing l ->
  filter (fun c => negb (isnull c)) l = filter observed l.
Proof.
  induction 1 as [| c l Hc _ IH]; simpl; [reflexivity |].
  destruct c; simpl in *; try contradiction; now rewrite IH.
Qed.

Lemma Forall_window_at {P : cell -> Prop} (w : nat) (l : list cell) (i : nat) :
  Forall P l -> Forall P (window_at w l i).
Proof.
  intros H. unfold window_at.
  apply Forall_forall. intros x Hx.
  apply (proj1 (Forall_forall P l) H).
  rewrite <- (firstn_skipn (S i - w) l). apply in_or_app. right.
  set (tl := skipn (S i - w) l) in *.
  rewrite <- (firstn_skipn (S i - (S i - w)) tl). apply in_or_app. now left.
Qed.

Lemma row_mean_finite (r : list cell) :
  Forall finite_or_missing r -> finite_or_missing (row_mean r).
Proof.
  intros H. unfold row_mean. rewrite (present_is_observed r H).
  destruct (filter observed r) as [| c tl] eqn:E; [exact I |].
  destruct (mean_of_observed r) as [q Hq]; [congruence |].
  rewrite E in Hq. rewrite Hq. exact I.
Qed.

Lemma before_smoothing_finite (df : list (list cell)) (pt : option Q) :
  Forall (Forall finite_or_missing) df ->
  Forall finite_or_missing (as_float (score_before_smoothing df pt)).
Proof.
  intros H. unfold score_before_smoothing.
  assert (Hm : Forall finite_or_missing (map row_mean df)).
  { induction H as [| r df Hr _ IH]; simpl; constructor;
      auto using row_mean_finite. }
  destruct (threshold_given pt); [| exact Hm].
  destruct pt as [t |]; [| exact Hm].
  simpl. apply Forall_forall. intros c Hc.
  apply in_map_iff in Hc. destruct Hc as [b [<- _]]. now destruct b.
Qed.

Lemma length_before_smoothing (df : list (list cell)) (pt : option Q) :
  List.length (as_float (score_before_smoothing df pt)) = List.length df.
Proof.
  unfold score_before_smoothing.
  destruct (threshold_given pt); [destruct pt |]; simpl;
    now rewrite ?length_map.
Qed.

(** C7, amended. For a window [w >= 0] over scores that are finite or
    missing, the moving average at a position is present exactly when
    at least [max(1, w // 2)] of the points of the window that ends
    there (at most [w] of them) are present. *)
Theorem moving_average_floor_support (df : list (list cell)) (pt : option Q) (w : Z)
    (Hw : (0 <= w)%Z) (Hdf : Forall (Forall finite_or_missing) df) :
  exists out,
    aggregate_scores ewm_mean df (Some (mk_model pt (IntWindow w))) = Ok (FloatCol out)
    /\ List.length out = List.length df
    /\ forall i, (i < List.length df)%nat ->
         (isnull (nth i out NaN) = false
          <-> (Z.max 1 (w / 2)
               <= Z.of_nat (present_count
                              (window_at (Z.to_nat w)
                                         (as_float (score_before_smoothing df pt)) i)))%Z).
Proof.
  unfold aggregate_scores. simpl.
  set (pre := as_float (score_before_smoothing df pt)).
  assert (Hlen : List.length pre = List.length df)
    by apply length_before_smoothing.
  assert (Hfin : Forall finite_or_missing pre)
    by now apply before_smoothing_finite.
  unfold rolling_mean.
  destruct (w <? 0)%Z eqn:E1; [apply Z.ltb_lt in E1; lia |].
  destruct (w <? w / 2)%Z eqn:E2.
  { apply Z.ltb_lt in E2.
    pose proof (Z.div_le_upper_bound w 2 w ltac:(lia) ltac:(lia)). lia. }
  simpl. eexists. split; [reflexivity |].
  split; [now rewrite length_map, length_seq |].
  intros i Hi.
  rewrite (nth_indep _ NaN (rolling_mean_at (Z.to_nat w) (Z.to_nat (w / 2)) pre 0))
    by (rewrite length_map, length_seq; lia).
  rewrite map_nth, seq_nth by lia. simpl.
  rewrite rolling_mean_at_present.
  unfold present_count.
  rewrite (present_is_observed _ (Forall_window_at (Z.to_nat w) pre i Hfin)).
  pose proof (Z.div_pos w 2 Hw ltac:(lia)). lia.
Qed.

End WithEwm.

(** C7, as stated, fails for a window of three: with a single present
    point in the window the average is present, though [ceil(3/2) = 2]. *)
Lemma moving_average_ceil_support_fails :
  let df := [[NaN]; [NaN]; [Num 1]] in
  exists out,
    aggregate_scores (fun _ _ l => Ok l) df (Some (mk_model None (IntWindow 3)))
    = Ok (FloatCol out)
    /\ isnull (nth 2 out NaN) = false
    /\ ~ (Qceiling (3 # 2)
          <= Z.of_nat (present_count
                         (window_at 3 (as_float (score_before_smoothing df None)) 2)))%Z.
Proof.
  simpl. eexists. split; [reflexivity |]. split; [reflexivity |].
  vm_compute. intros H. now apply H.
Qed.

Lemma moving_average_floor_support_witness :
  let df := [[NaN]; [NaN]; [Num 1]] in
  exists out,
    aggregate_scores (fun _ _ l => Ok l) df (Some (mk_model None (IntWindow 3)))
    = Ok (FloatCol out)
    /\ List.length out = List.length df
    /\ forall i, (i < List.length df)%nat ->
         (isnull (nth i out NaN) = false
          <-> (Z.max 1 (3 / 2)
               <= Z.of_nat (present_count
                              (window_at (Z.to_nat 3)
                                         (as_float (score_before_smoothing df None)) i)))%Z).
Proof.
  apply (moving_average_floor_support (fun _ _ l => Ok l)
           [[NaN]; [NaN]; [Num 1]] None 3).
  - lia.
  - repeat constructor.
Defined.

End AggregateFacts.

(** ** Depth discretizer: the empty curve *)

Module DepthErrors.
Import Depth.

(** C9, as stated, fails: the error of the empty curve is not one the
    code raises on purpose. *)
Lemma empty_curve_error_not_deliberate :
  ~ exists e, discretize "bid" [] 1 None = Raise e /\ deliberate e = true.
Proof.
  intros [e [H D]]. simpl in H. injection H as <-. discriminate.
Qed.

(** C9, amended. On the empty curve [discretize] fails with the
    [IndexError] of indexing an empty list, for every side, bin size and
    start. *)
Theorem empty_curve_raises_index_error (side : string) (bin_size : Q) (start : option Q) :
  discretize side [] bin_size start = Raise IndexError.
Proof. unfold discretize. now destruct start. Qed.

End DepthErrors.

(** ** Interval precision evaluator *)

Module IntervalFacts.
Import Intervals.
Local Open Scope Z_scope.

Definition b2z (b : bool) : Z := if b then 1 else 0.

Fixpoint ids_from (n : Z) (k : nat) : list Z :=
  match k with
  | O => []
  | S k' => n :: ids_from (n + 1) k'
  end.

(** The [interval_no] column of a table with the given labels. *)
Definition keys_of (l : list bool) : list Z :=
  match l with
  | [] => []
  | _ :: tl => cumsum (0 :: map b2z (zip_with xorb tl l))
  end.

Definition group_of {A : Type} (keys : list Z) (rows : list A) (k : Z) : list A :=
  map snd (filter (fun kr => fst kr =? k) (combine keys rows)).

Lemma astype_int_some (bs : list bool) :
  astype_int (map Some bs) = Ok (map b2z bs).
Proof.
  induction bs as [| b bs IH]; simpl; [reflexivity |].
  rewrite IH. reflexivity.
Qed.

Lemma changes_as_int (x : bool) (l : list bool) :
  bind (set_iloc0 (Some false) (diff (x :: l))) astype_int
  = Ok (0 :: map b2z (zip_with xorb l (x :: l))).
Proof.
  simpl. fold (astype_int (map Some (zip_with xorb l (x :: l)))).
  now rewrite astype_int_some.
Qed.

Lemma cumsum_from_shift (a b : Z) (l : list Z) :
  cumsum_from (a + b) l = map (Z.add a) (cumsum_from b l).
Proof.
  revert b. induction l as [| x l IH]; intros b; simpl; [reflexivity |].
  rewrite <- Z.add_assoc. now rewrite IH.
Qed.

Lemma keys_of_cons2 (x y : bool) (l : list bool) :
  keys_of (x :: y :: l) = 0 :: map (Z.add (b2z (xorb y x))) (keys_of (y :: l)).
Proof.
  unfold keys_of, cumsum. simpl. rewrite Z.add_0_r. do 2 f_equal.
  rewrite <- cumsum_from_shift. now rewrite Z.add_0_r.
Qed.

Lemma keys_of_nonneg (l : list bool) : Forall (fun k => 0 <= k) (keys_of l).
Proof.
  destruct l as [| x l]; [constructor |].
  revert x. induction l as [| y l IH]; intros x.
  - repeat constructor. simpl. lia.
  - rewrite keys_of_cons2. constructor; [lia |].
    specialize (IH y). apply Forall_forall. intros k Hk.
    apply in_map_iff in Hk. destruct Hk as [k' [<- Hk']].
    pose proof (proj1 (Forall_forall _ _) IH k' Hk') as Hpos.
    cbv beta in Hpos. destruct (xorb y x); simpl b2z; lia.
Qed.

(** *** Keys and groups under a shift of the keys *)

Lemma insert_key_shift (d k : Z) (ks : list Z) :
  insert_key (d + k) (map (Z.add d) ks) = map (Z.add d) (insert_key k ks).
Proof.
  induction ks as [| h ks IH]; simpl; [reflexivity |].
  replace (d + k <? d + h) with (k <? h)
    by (destruct (k <? h) eqn:E; symmetry;
        [apply Z.ltb_lt; apply Z.ltb_lt in E | apply Z.ltb_ge; apply Z.ltb_ge in E]; lia).
  replace (d + k =? d + h) with (k =? h)
    by (destruct (k =? h) eqn:E; symmetry;
        [apply Z.eqb_eq; apply Z.eqb_eq in E | apply Z.eqb_neq; apply Z.eqb_neq in E]; lia).
  destruct (k <? h); [reflexivity |].
  destruct (k =? h); [reflexivity |].
  simpl. now rewrite IH.
Qed.

Lemma group_keys_shift (d : Z) (ks : list Z) :
  group_keys (map (Z.add d) ks) = map (Z.add d) (group_keys ks).
Proof.
  unfold group_keys. induction ks as [| k ks IH]; simpl; [reflexivity |].
  now rewrite IH, insert_key_shift.
Qed.

Lemma group_of_shift {A : Type} (d k : Z) (ks : list Z) (rows : list A) :
  group_of (map (Z.add d) ks) rows (d + k) = group_of ks rows k.
Proof.
  unfold group_of. revert rows.
  induction ks as [| h ks IH]; intros [| r rows]; simpl; try reflexivity.
  replace (d + h =? d + k) with (h =? k)
    by (destruct (h =? k) eqn:E; symmetry;
        [apply Z.eqb_eq; apply Z.eqb_eq in E | apply Z.eqb_neq; apply Z.eqb_neq in E]; lia).
  destruct (h =? k); simpl; now rewrite IH.
Qed.

Lemma group_of_absent {A : Type} (k : Z) (ks : list Z) (rows : list A) :
  Forall (fun h => h <> k) ks -> group_of ks rows k = [].
Proof.
  unfold group_of. intros H. revert rows.
  induction H as [| h ks Hh _ IH]; intros [| r rows]; simpl; try reflexivity.
  apply Z.eqb_neq in Hh. rewrite Hh. apply IH.
Qed.

Lemma group_of_cons {A : Type} (h k : Z) (ks : list Z) (r : A) (rows : list A) :
  group_of (h :: ks) (r :: rows) k
  = if h =? k then r :: group_of ks rows k else group_of ks rows k.
Proof. unfold group_of. simpl. now destruct (h =? k). Qed.

Lemma ids_from_shift (d n : Z) (k : nat) :
  map (Z.add d) (ids_from n k) = ids_from (d + n) k.
Proof.
  revert n. induction k as [| k IH]; intros n; simpl; [reflexivity |].
  now rewrite IH, Z.add_assoc.
Qed.

Lemma ids_from_lower (n : Z) (k : nat) : Forall (fun i => n <= i) (ids_from n k).
Proof.
  revert n. induction k as [| k IH]; intros n; simpl; constructor; [lia |].
  eapply Forall_impl; [| apply IH]. simpl. intros. lia.
Qed.

Lemma map_add_zero (l : list Z) : map (Z.add 0) l = l.
Proof. induction l as [| x l IH]; simpl; [reflexivity |]. now rewrite IH. Qed.

(** *** Runs *)

Lemma runs_cons (x : point_row) (l : list point_row) :
  exists ys rs, runs (x :: l) = (x :: ys) :: rs.
Proof.
  simpl. destruct (runs l) as [| [| y ys] rs]; eauto.
  destruct (Bool.eqb (label x) (label y)); eauto.
Qed.

Lemma runs_cons2 (x y : point_row) (l : list point_row) :
  exists ys rs,
    runs (y :: l) = (y :: ys) :: rs
    /\ runs (x :: y :: l)
       = if Bool.eqb (label x) (label y)
         then (x :: y :: ys) :: rs
         else [x] :: (y :: ys) :: rs.
Proof.
  destruct (runs_cons y l) as [ys [rs E]].
  exists ys, rs. split; [exact E |].
  change (runs (x :: y :: l)) with
    (match runs (y :: l) with
     | (y0 :: ys0) :: rs0 =>
         if Bool.eqb (label x) (label y0)
         then (x :: y0 :: ys0) :: rs0
         else [x] :: (y0 :: ys0) :: rs0
     | _ => [[x]]
     end).
  now rewrite E.
Qed.

Lemma concat_runs (df : list point_row) : concat (runs df) = df.
Proof.
  induction df as [| x [| y l] IH]; [reflexivity | reflexivity |].
  destruct (runs_cons2 x y l) as [ys [rs [E1 E2]]].
  rewrite E2. rewrite E1 in IH.
  destruct (Bool.eqb (label x) (label y)); simpl in *; now rewrite IH.
Qed.

Lemma runs_uniform (df : list point_row) : Forall uniform (runs df).
Proof.
  induction df as [| x [| y l] IH].
  - constructor.
  - repeat constructor. discriminate.
  - destruct (runs_cons2 x y l) as [ys [rs [E1 E2]]].
    rewrite E2. rewrite E1 in IH. inversion IH as [| ? ? [_ Hu] Hrs]; subst.
    destruct (Bool.eqb (label x) (label y)) eqn:E.
    + apply Bool.eqb_prop in E. constructor; [| exact Hrs].
      split; [discriminate |]. simpl in *. constructor; [reflexivity |].
      rewrite E. exact Hu.
    + constructor; [| exact IH].
      split; [discriminate |]. repeat constructor.
Qed.

Lemma runs_alternating (df : list point_row) : alternating (runs df).
Proof.
  induction df as [| x [| y l] IH]; [exact I | exact I |].
  destruct (runs_cons2 x y l) as [ys [rs [E1 E2]]].
  rewrite E2. rewrite E1 in IH.
  destruct (Bool.eqb (label x) (label y)) eqn:E.
  - apply Bool.eqb_prop in E.
    destruct rs as [| r2 rs]; [exact I |].
    destruct IH as [H1 H2]. split; [| exact H2].
    simpl in *. now rewrite E.
  - split; [| exact IH]. simpl. now apply Bool.eqb_false_iff in E.
Qed.
(** *** The groups of the code are the runs *)

Lemma xorb_of_eqb (a b : bool) : xorb b a = negb (Bool.eqb a b).
Proof. now destruct a, b. Qed.

Lemma groups_are_runs (df : list point_row) :
  df <> [] ->
  group_keys (keys_of (map label df)) = ids_from 0 (List.length (runs df))
  /\ map (group_of (keys_of (map label df)) df) (ids_from 0 (List.length (runs df)))
     = runs df.
Proof.
  induction df as [| x [| y l] IH]; intros Hne.
  - congruence.
  - split; reflexivity.
  - destruct IH as [IHk IHg]; [discriminate |].
    destruct (runs_cons2 x y l) as [ys [rs [E1 E2]]].
    rewrite E2. rewrite E1 in IHk, IHg.
    change (map label (x :: y :: l)) with (label x :: label y :: map label l).
    rewrite keys_of_cons2, xorb_of_eqb.
    change (label y :: map label l) with (map label (y :: l)).
    pose proof (keys_of_nonneg (map label (y :: l))) as Hpos.
    set (K := keys_of (map label (y :: l))) in *.
    set (rows := y :: l) in *.
    cbn [List.length ids_from] in IHk, IHg. cbn [map] in IHg.
    change (0 + 1) with 1 in IHk, IHg.
    assert (IHg0 : group_of K rows 0 = y :: ys) by congruence.
    assert (IHgs : map (group_of K rows) (ids_from 1 (List.length rs)) = rs)
      by congruence.
    clear IHg.
    destruct (Bool.eqb (label x) (label y)).
    + simpl b2z. rewrite map_add_zero.
      simpl List.length. simpl ids_from. split.
      * change (group_keys (0 :: K)) with (insert_key 0 (group_keys K)).
        rewrite IHk. reflexivity.
      * cbn [map]. rewrite group_of_cons. simpl (0 =? 0). rewrite IHg0.
        f_equal.
        transitivity (map (group_of K rows) (ids_from 1 (List.length rs)));
          [| exact IHgs].
        apply map_ext_in. intros k Hk.
        pose proof (proj1 (Forall_forall _ _) (ids_from_lower 1 _) k Hk) as Hk1.
        cbv beta in Hk1. rewrite group_of_cons.
        destruct (0 =? k) eqn:E; [apply Z.eqb_eq in E; lia | reflexivity].
    + simpl b2z. simpl List.length. split.
      * change (group_keys (0 :: map (Z.add 1) K))
          with (insert_key 0 (group_keys (map (Z.add 1) K))).
        rewrite group_keys_shift, IHk.
        change (0 :: ids_from 1 (List.length rs)) with (ids_from 0 (S (List.length rs))).
        rewrite ids_from_shift. reflexivity.
      * change (ids_from 0 (S (S (List.length rs))))
          with (0 :: ids_from (1 + 0) (S (List.length rs))).
        rewrite <- ids_from_shift. cbn [map].
        rewrite group_of_cons. simpl (0 =? 0).
        rewrite group_of_absent.
        2:{ apply Forall_forall. intros h Hh. apply in_map_iff in Hh.
            destruct Hh as [h' [<- Hh']].
            pose proof (proj1 (Forall_forall _ _) Hpos h' Hh') as Hh0.
            cbv beta in Hh0. lia. }
        f_equal. rewrite map_map.
        transitivity (map (group_of K rows) (ids_from 0 (S (List.length rs))));
          [| cbn [map ids_from]; change (0 + 1) with 1; congruence].
        apply map_ext_in. intros k Hk.
        pose proof (proj1 (Forall_forall _ _)
                      (ids_from_lower 0 (S (List.length rs))) k Hk) as Hk0.
        cbv beta in Hk0. rewrite group_of_cons.
        destruct (0 =? 1 + k) eqn:E; [apply Z.eqb_eq in E; lia |].
        apply group_of_shift.
Qed.

Lemma groupby_group_of {A : Type} (keys : list Z) (rows : list A) :
  groupby keys rows = map (fun k => (k, group_of keys rows k)) (group_keys keys).
Proof. reflexivity. Qed.

Lemma combine_columns {A B C : Type} (f : A -> B) (g : A -> C) (l : list A) :
  combine (map f l) (map g l) = map (fun r => (f r, g r)) l.
Proof. induction l as [| r l IH]; simpl; [reflexivity |]. now rewrite IH. Qed.

Lemma group_of_map {A B : Type} (f : A -> B) (keys : list Z) (rows : list A) (k : Z) :
  group_of keys (map f rows) k = map f (group_of keys rows k).
Proof.
  unfold group_of. revert rows.
  induction keys as [| h keys IH]; intros [| r rows]; simpl; try reflexivity.
  destruct (h =? k); simpl; now rewrite IH.
Qed.

Lemma bool_max_exists {A : Type} (p : A -> bool) (l : list A) :
  bool_max (map p l) = existsb p l.
Proof.
  unfold bool_max. induction l as [| a l IH]; simpl; [reflexivity |].
  now rewrite IH.
Qed.

Lemma existsb_label_uniform (r : list point_row) :
  uniform r -> existsb label r = run_label r.
Proof.
  intros [Hne H]. destruct r as [| p r]; [congruence |].
  simpl in *. destruct (label p); [reflexivity |].
  inversion H as [| ? ? _ Hr]; subst. simpl.
  clear H. induction Hr as [| q r Hq _ IH]; simpl; [reflexivity |].
  now rewrite Hq, IH.
Qed.

Lemma intervals_of_groups (threshold : Q) (G : Z -> list point_row)
    (rs : list (list point_row)) (n : Z) :
  Forall uniform rs ->
  map G (ids_from n (List.length rs)) = rs ->
  map (fun k =>
         mk_interval k
           (bool_max (map fst (map (fun r => (label r, ge (score r) (Num threshold))) (G k))))
           (bool_max (map snd (map (fun r => (label r, ge (score r) (Num threshold))) (G k)))))
      (ids_from n (List.length rs))
  = number_runs threshold n rs.
Proof.
  intros Hu. revert n. induction Hu as [| r rs Hr _ IH]; intros n HG; simpl in *.
  - reflexivity.
  - injection HG as HG0 HGs. rewrite (IH _ HGs). f_equal.
    rewrite HG0, !map_map, !bool_max_exists.
    f_equal. exact (existsb_label_uniform r Hr).
Qed.

(** The code, with its two conversions carried out. *)
Lemma find_interval_precision_groups (df : list point_row) (threshold : Q) :
  df <> [] ->
  find_interval_precision df threshold
  = Ok (map (fun g => mk_interval (fst g)
                                  (bool_max (map fst (snd g)))
                                  (bool_max (map snd (snd g))))
            (groupby (keys_of (map label df))
                     (map (fun r => (label r, ge (score r) (Num threshold))) df))).
Proof.
  intros Hne. unfold find_interval_precision. rewrite combine_columns.
  destruct df as [| x l]; [congruence |].
  cbn [map diff set_iloc0 bind astype_int].
  rewrite astype_int_some. reflexivity.
Qed.

Lemma find_interval_precision_evaluate (df : list point_row) (threshold : Q) :
  df <> [] -> find_interval_precision df threshold = Ok (evaluate df threshold).
Proof.
  intros Hne. destruct (groups_are_runs df Hne) as [Hk Hg].
  rewrite (find_interval_precision_groups df threshold Hne).
  unfold evaluate.
  rewrite groupby_group_of, Hk, map_map. cbn [fst snd].
  f_equal.
  rewrite <- (intervals_of_groups threshold
                (group_of (keys_of (map label df)) df)
                (runs df) 0 (runs_uniform _) Hg).
  apply map_ext. intros k. now rewrite group_of_map.
Qed.

Lemma number_runs_ids (threshold : Q) (n : Z) (rs : list (list point_row)) :
  map interval_no (number_runs threshold n rs) = ids_from n (List.length rs).
Proof.
  revert n. induction rs as [| r rs IH]; intros n; simpl; [reflexivity |].
  now rewrite IH.
Qed.

Lemma number_runs_labels (threshold : Q) (n : Z) (rs : list (list point_row)) :
  map interval_label (number_runs threshold n rs) = map run_label rs
  /\ map interval_score (number_runs threshold n rs) = map (run_fires threshold) rs.
Proof.
  revert n. induction rs as [| r rs IH]; intros n; simpl; [now split |].
  destruct (IH (n + 1)) as [-> ->]. now split.
Qed.

(** The example of the specification. *)
Definition example_points : list point_row :=
  [ mk_point true (Num (9 # 10)); mk_point true (Num (2 # 10));
    mk_point false (Num (1 # 10)); mk_point false (Num (1 # 10));
    mk_point true (Num (9 # 10)) ].

(** C5. On a non-empty table the evaluator returns one row per maximal
    run of equal labels: the runs partition the table in order, each is
    uniform and neighbours differ; the ids are 0, 1, 2, ... from the
    first run on, the label is the label of the run and the score tells
    whether some point of the run reaches the threshold.  On the example
    of the specification the rows are (0,T,T), (1,F,F), (2,T,T). *)
Theorem interval_precision_postcondition (df : list point_row) (threshold : Q)
    (H : df <> []) :
  find_interval_precision df threshold = Ok (evaluate df threshold)
  /\ concat (runs df) = df
  /\ Forall uniform (runs df)
  /\ alternating (runs df)
  /\ map interval_no (evaluate df threshold) = ids_from 0 (List.length (runs df))
  /\ map interval_label (evaluate df threshold) = map run_label (runs df)
  /\ map interval_score (evaluate df threshold) = map (run_fires threshold) (runs df)
  /\ find_interval_precision example_points (1 # 2)
     = Ok [mk_interval 0 true true; mk_interval 1 false false; mk_interval 2 true true].
Proof.
  split; [now apply find_interval_precision_evaluate |].
  split; [apply concat_runs |].
  split; [apply runs_uniform |].
  split; [apply runs_alternating |].
  split; [apply number_runs_ids |].
  split; [apply number_runs_labels |].
  split; [apply number_runs_labels | reflexivity].
Qed.

Lemma interval_precision_postcondition_witness :
  let df := example_points in
  let threshold := 1 # 2 in
  find_interval_precision df threshold = Ok (evaluate df threshold)
  /\ concat (runs df) = df
  /\ Forall uniform (runs df)
  /\ alternating (runs df)
  /\ map interval_no (evaluate df threshold) = ids_from 0 (List.length (runs df))
  /\ map interval_label (evaluate df threshold) = map run_label (runs df)
  /\ map interval_score (evaluate df threshold) = map (run_fires threshold) (runs df)
  /\ find_interval_precision example_points (1 # 2)
     = Ok [mk_interval 0 true true; mk_interval 1 false false; mk_interval 2 true true].
Proof.
  apply (interval_precision_postcondition example_points (1 # 2)).
  discriminate.
Defined.

End IntervalFacts.

(** ** Depth discretizer *)

Module DepthFacts.
Import Depth.

(** *** Bins, whatever the order of the points *)

Lemma in_bin_iff (inc : bool) (s e : Q) (x : point) :
  in_bin inc s e x = true
  <-> if inc then s <= fst x /\ fst x < e else e < fst x /\ fst x <= s.
Proof.
  unfold in_bin. destruct inc; rewrite andb_true_iff, Qle_bool_iff, Qlt_bool_iff;
    tauto.
Qed.

Lemma in_bin_compat (inc : bool) (s s' e e' : Q) (x : point) :
  s == s' -> e == e' -> in_bin inc s e x = in_bin inc s' e' x.
Proof.
  intros Hs He.
  destruct (in_bin inc s e x) eqn:E1, (in_bin inc s' e' x) eqn:E2; try reflexivity.
  - apply in_bin_iff in E1.
    assert (H : in_bin inc s' e' x = true)
      by (apply in_bin_iff; destruct inc; lra).
    congruence.
  - apply in_bin_iff in E2.
    assert (H : in_bin inc s e x = true)
      by (apply in_bin_iff; destruct inc; lra).
    congruence.
Qed.

Definition enum_from {A : Type} (k : nat) (l : list A) : list (nat * A) :=
  combine (seq k (List.length l)) l.

Lemma enum_from_app {A : Type} (k : nat) (l1 l2 : list A) :
  enum_from k (l1 ++ l2) = enum_from k l1 ++ enum_from (k + List.length l1) l2.
Proof.
  unfold enum_from. revert k. induction l1 as [| a l1 IH]; intros k; simpl.
  - now rewrite Nat.add_0_r.
  - rewrite IH. now rewrite Nat.add_succ_r.
Qed.

Definition ids_where (f : point -> bool) (k : nat) (l : list point) : list nat :=
  map fst (filter (fun ix => f (snd ix)) (enum_from k l)).

Lemma ids_where_app (f : point -> bool) (k : nat) (l1 l2 : list point) :
  ids_where f k (l1 ++ l2) = ids_where f k l1 ++ ids_where f (k + List.length l1) l2.
Proof.
  unfold ids_where. now rewrite enum_from_app, filter_app, map_app.
Qed.

Lemma ids_where_none (f : point -> bool) (k : nat) (l : list point) :
  Forall (fun p => f p = false) l -> ids_where f k l = [].
Proof.
  unfold ids_where, enum_from. intros H. revert k.
  induction H as [| p l Hp _ IH]; intros k; simpl; [reflexivity |].
  rewrite Hp. apply IH.
Qed.

Lemma ids_where_all (f : point -> bool) (k : nat) (l : list point) :
  Forall (fun p => f p = true) l -> ids_where f k l = seq k (List.length l).
Proof.
  unfold ids_where, enum_from. intros H. revert k.
  induction H as [| p l Hp _ IH]; intros k; simpl; [reflexivity |].
  rewrite Hp. simpl. now rewrite IH.
Qed.

Lemma ids_where_bound (f : point -> bool) (k : nat) (l : list point) (i : nat) :
  In i (ids_where f k l) -> (k <= i < k + List.length l)%nat.
Proof.
  unfold ids_where, enum_from. intros H.
  apply in_map_iff in H. destruct H as [[j p] [<- H]].
  apply filter_In in H. destruct H as [H _].
  apply in_combine_l in H. apply in_seq in H. simpl. lia.
Qed.

Lemma ids_where_nonempty (f : point -> bool) (k : nat) (l : list point) :
  existsb f l = true -> ids_where f k l <> [].
Proof.
  unfold ids_where, enum_from. revert k.
  induction l as [| p l IH]; intros k; simpl; [discriminate |].
  destruct (f p); simpl; [discriminate |]. apply IH.
Qed.

Lemma fold_min_in (x : nat) (l : list nat) : In (fold_left Nat.min l x) (x :: l).
Proof.
  revert x. induction l as [| y l IH]; intros x; simpl; [now left |].
  destruct (IH (Nat.min x y)) as [H | H].
  - rewrite <- H.
    destruct (Nat.min_spec x y) as [[_ E] | [_ E]]; rewrite E; auto.
  - right. now right.
Qed.

Lemma list_min_in (d x : nat) (l : list nat) : In (list_min d (x :: l)) (x :: l).
Proof. apply fold_min_in. Qed.

Lemma fold_min_seq (a x n : nat) :
  (x <= a)%nat -> fold_left Nat.min (seq a n) x = x.
Proof.
  revert a x. induction n as [| n IH]; intros a x H; simpl; [reflexivity |].
  rewrite Nat.min_l by lia. apply IH. lia.
Qed.

Lemma fold_max_seq (a x n : nat) :
  (S x = a)%nat -> fold_left Nat.max (seq a n) x = (x + n)%nat.
Proof.
  revert a x. induction n as [| n IH]; intros a x H; simpl; [lia |].
  rewrite Nat.max_r by lia. rewrite (IH (S a) a) by lia. lia.
Qed.

Lemma list_min_seq (d a n : nat) : list_min d (seq a (S n)) = a.
Proof. simpl. apply fold_min_seq. lia. Qed.

Lemma list_max_seq (d a n : nat) : list_max d (seq a (S n)) = (a + n)%nat.
Proof. simpl. now apply fold_max_seq. Qed.

Lemma visit_keeps_bound (bin_size : Q) (pts : list point) (c : cursor) :
  prev_point c <> Unbound ->
  prev_point (fold_left (visit bin_size) pts c) <> Unbound.
Proof.
  revert c. induction pts as [| p pts IH]; intros c H; simpl; [exact H |].
  apply IH. simpl. discriminate.
Qed.

(** A bin succeeds as soon as [prev_point] is assigned or the bin holds a
    point, and it leaves [prev_point] assigned. *)
Lemma bin_body_succeeds (inc : bool) (depth : list point) (bin_size start : Q)
    (pp : pyvar) (b : nat) :
  pp <> Unbound
  \/ bin_point_ids inc
       (if inc then start + Qnat b * bin_size else start - Qnat b * bin_size)
       (if inc then start + Qnat b * bin_size + bin_size
        else start - Qnat b * bin_size - bin_size) depth <> [] ->
  exists v pp', bin_body inc depth bin_size start pp b = Ok (v, pp') /\ pp' <> Unbound.
Proof.
  intros H. unfold bin_body.
  set (bin_start := if inc then start + Qnat b * bin_size else start - Qnat b * bin_size) in *.
  replace (if inc then start + Qnat b * bin_size + bin_size
           else start - Qnat b * bin_size - bin_size)
    with (if inc then bin_start + bin_size else bin_start - bin_size) in H
    by (unfold bin_start; now destruct inc).
  set (bin_end := if inc then bin_start + bin_size else bin_start - bin_size) in *.
  destruct (bin_point_ids inc bin_start bin_end depth) as [| i ids] eqn:E.
  - destruct H as [H | H]; [| congruence].
    destruct pp as [| | p]; [congruence | |]; simpl; eexists; eexists;
      (split; [reflexivity | discriminate]).
  - pose proof (list_min_in 0 i ids) as Hin. rewrite <- E in Hin at 2.
    apply (ids_where_bound _ 0 depth) in Hin.
    set (first := list_min 0 (i :: ids)) in *.
    destruct (1 <=? first)%nat eqn:E1.
    + destruct (nth_error depth (first - 1)) as [q |] eqn:E2.
      * simpl. eexists; eexists. split; [reflexivity |].
        apply visit_keeps_bound. simpl. discriminate.
      * apply nth_error_None in E2. apply Nat.leb_le in E1. lia.
    + simpl. eexists; eexists. split; [reflexivity |].
      apply visit_keeps_bound. simpl. discriminate.
Qed.

Lemma bins_loop_succeeds (body : pyvar -> nat -> result (Q * pyvar))
    (bins : list nat) (pp : pyvar) :
  (forall pp b, pp <> Unbound ->
     exists v pp', body pp b = Ok (v, pp') /\ pp' <> Unbound) ->
  pp <> Unbound ->
  exists vs, bins_loop body bins pp = Ok vs /\ List.length vs = List.length bins.
Proof.
  intros Hbody. revert pp. induction bins as [| b bins IH]; intros pp Hpp; simpl.
  - now exists [].
  - destruct (Hbody pp b Hpp) as [v [pp' [E Hpp']]]. rewrite E. simpl.
    destruct (IH pp' Hpp') as [vs [Evs Hlen]]. rewrite Evs. simpl.
    exists (v :: vs). split; [reflexivity | simpl; now rewrite Hlen].
Qed.

Lemma existsb_pointwise {A : Type} (f g : A -> bool) (l : list A) :
  (forall x, f x = g x) -> existsb f l = existsb g l.
Proof.
  intros H. induction l as [| a l IH]; simpl; [reflexivity |].
  now rewrite H, IH.
Qed.

Lemma bins_loop_from_occupied (inc : bool) (depth : list point) (bin_size start : Q)
    (n : nat) :
  existsb (in_bin inc start (if inc then start + bin_size else start - bin_size)) depth
  = true ->
  exists vs,
    bins_loop (bin_body inc depth bin_size start) (seq 0 n) Unbound = Ok vs
    /\ List.length vs = n.
Proof.
  intros Hocc. destruct n as [| n]; [now exists [] |].
  simpl.
  destruct (bin_body_succeeds inc depth bin_size start Unbound 0) as [v [pp [E Hpp]]].
  { right. apply (ids_where_nonempty _ 0 depth).
    rewrite <- Hocc. apply existsb_pointwise. intros x.
    apply in_bin_compat; unfold Qnat; simpl Z.of_nat;
      change (inject_Z 0) with 0; destruct inc; lra. }
  rewrite E. simpl.
  destruct (bins_loop_succeeds (bin_body inc depth bin_size start) (seq 1 n) pp)
    as [vs [Evs Hlen]]; [| exact Hpp |].
  { intros pp0 b H0. apply bin_body_succeeds. now left. }
  rewrite Evs. simpl. exists (v :: vs).
  split; [reflexivity |]. simpl. now rewrite Hlen, length_seq.
Qed.

(** *** Number of bins *)



Lemma ratio_nonneg (d bin_size : Q) : 0 < bin_size -> 0 <= Qabs d / bin_size.
Proof.
  intros H. apply Qle_shift_div_l; [exact H |].
  pose proof (Qabs_nonneg d). lra.
Qed.

Lemma bin_count_positive (d bin_size : Q) :
  0 < bin_size -> (1 <= Qfloor (Qabs d / bin_size) + 1)%Z.
Proof.
  intros H. pose proof (Qfloor_resp_le _ _ (ratio_nonneg d bin_size H)) as H0.
  change (Qfloor 0) with 0%Z in H0. lia.
Qed.

Lemma bin_count_of_positive (last start bin_size : Q) :
  0 < bin_size ->
  bin_count_of last start bin_size
  = Ok (Qfloor (Qabs (last - start) / bin_size) + 1)%Z.
Proof.
  intros H. unfold bin_count_of.
  destruct (Qeq_bool bin_size 0) eqn:E; [| reflexivity].
  apply Qeq_bool_iff in E. lra.
Qed.





(** *** One bin of a sorted curve *)

(** Price at which bin [k] starts; bin [k] ends where bin [k + 1] starts. *)
Definition edge (inc : bool) (start bin_size : Q) (k : nat) : Q :=
  if inc then start + Qnat k * bin_size else start - Qnat k * bin_size.

(** The value of [prev_point] once the points [pre] have been passed, and
    the volume in force after them. *)
Definition last_var (pre : list point) : pyvar :=
  match rev pre with
  | [] => PyNone
  | p :: _ => Bound p
  end.

Definition last_volume (pre : list point) : Q :=
  match rev pre with
  | [] => 0
  | p :: _ => snd p
  end.

Lemma volume_of_last_var (pre : list point) :
  volume_or_zero (last_var pre) = Ok (last_volume pre).
Proof. unfold last_var, last_volume. now destruct (rev pre). Qed.

Lemma prev_point_lookup (pre rest : list point) :
  (if (1 <=? List.length pre)%nat
   then match nth_error (pre ++ rest) (List.length pre - 1) with
        | Some p => Ok (Bound p)
        | None => Raise IndexError
        end
   else Ok PyNone)
  = Ok (last_var pre).
Proof.
  induction pre as [| a pre' _] using rev_ind; [reflexivity |].
  unfold last_var. rewrite rev_unit, length_app. simpl List.length.
  replace (1 <=? List.length pre' + 1)%nat with true
    by (symmetry; apply Nat.leb_le; lia).
  replace (List.length pre' + 1 - 1)%nat with (List.length pre') by lia.
  rewrite <- app_assoc, nth_error_app2 by lia.
  now rewrite Nat.sub_diag.
Qed.

Lemma points_range_middle (pre mid post : list point) (m : point) :
  points_range (pre ++ m :: mid ++ post) (List.length pre)
               (List.length pre + List.length mid)
  = m :: mid.
Proof.
  unfold points_range.
  replace (S (List.length pre + List.length mid) - List.length pre)%nat
    with (List.length (m :: mid) + 0)%nat by (cbn [List.length]; lia).
  rewrite skipn_app, skipn_all, Nat.sub_diag. simpl skipn. simpl app.
  change (m :: mid ++ post) with ((m :: mid) ++ post).
  rewrite firstn_app_2. simpl. now rewrite app_nil_r.
Qed.

Lemma fold_visit_point (bin_size : Q) (pts : list point) (c : cursor) :
  prev_point (fold_left (visit bin_size) pts c)
  = match rev pts with
    | [] => prev_point c
    | p :: _ => Bound p
    end.
Proof.
  revert c. induction pts as [| a pts' _] using rev_ind; intros c; [reflexivity |].
  now rewrite fold_left_app, rev_unit.
Qed.

(** The volume of a bin, times the bin width, is the area below the
    step function between the two ends of the bin. *)
Lemma fold_visit_area (bin_size e : Q) (pts : list point) (c : cursor) :
  ~ bin_size == 0 ->
  close_bin bin_size e (fold_left (visit bin_size) pts c) * bin_size
  == bin_volume c * bin_size + step_area (prev_price c) (prev_volume c) pts e.
Proof.
  intros Hb. revert c. induction pts as [| p pts IH]; intros c;
    cbn [fold_left step_area].
  - unfold close_bin. field. exact Hb.
  - rewrite IH. unfold visit.
    cbn [bin_volume prev_price prev_volume]. field. exact Hb.
Qed.

Lemma last_var_app (pre mid : list point) :
  mid <> [] -> last_var (pre ++ mid) = last_var mid.
Proof.
  intros H. unfold last_var. rewrite rev_app_distr.
  destruct (rev mid) as [| p r] eqn:E; [| reflexivity].
  apply (f_equal (@rev point)) in E. rewrite rev_involutive in E. simpl in E.
  congruence.
Qed.

Lemma last_volume_app (pre mid : list point) :
  mid <> [] -> last_volume (pre ++ mid) = last_volume mid.
Proof.
  intros H. unfold last_volume. rewrite rev_app_distr.
  destruct (rev mid) as [| p r] eqn:E; [| reflexivity].
  apply (f_equal (@rev point)) in E. rewrite rev_involutive in E. simpl in E.
  congruence.
Qed.

Lemma bin_body_sorted (inc : bool) (pre mid post : list point)
    (bin_size start : Q) (pp : pyvar) (b : nat) :
  let bin_start := edge inc start bin_size b in
  let bin_end := if inc then bin_start + bin_size else bin_start - bin_size in
  ~ bin_size == 0 ->
  Forall (fun p => in_bin inc bin_start bin_end p = false) pre ->
  Forall (fun p => in_bin inc bin_start bin_end p = true) mid ->
  Forall (fun p => in_bin inc bin_start bin_end p = false) post ->
  (mid = [] -> pp = last_var pre) ->
  exists v,
    bin_body inc (pre ++ mid ++ post) bin_size start pp b
    = Ok (v, last_var (pre ++ mid))
    /\ v * bin_size == step_area bin_start (last_volume pre) mid bin_end.
Proof.
  intros bin_start bin_end Hb Hpre Hmid Hpost Hpp.
  unfold bin_body. fold (edge inc start bin_size b). fold bin_start. fold bin_end.
  change (bin_point_ids inc bin_start bin_end (pre ++ mid ++ post))
    with (ids_where (in_bin inc bin_start bin_end) 0 (pre ++ mid ++ post)).
  rewrite !ids_where_app, (ids_where_none _ _ pre Hpre), (ids_where_none _ _ post Hpost),
    (ids_where_all _ _ mid Hmid), app_nil_r.
  simpl app. simpl Nat.add.
  destruct mid as [| m mid'].
  - simpl seq. rewrite (Hpp eq_refl), volume_of_last_var. simpl bind.
    rewrite app_nil_r. eexists. split; [reflexivity |].
    unfold close_bin. cbn [bin_volume prev_price prev_volume step_area].
    field. exact Hb.
  - change (seq (List.length pre) (List.length (m :: mid')))
      with (List.length pre :: seq (S (List.length pre)) (List.length mid')).
    change (List.length pre :: seq (S (List.length pre)) (List.length mid'))
      with (seq (List.length pre) (S (List.length mid'))).
    rewrite list_min_seq, list_max_seq.
    change (seq (List.length pre) (S (List.length mid')))
      with (List.length pre :: seq (S (List.length pre)) (List.length mid')).
    cbv iota.
    rewrite prev_point_lookup. simpl bind.
    rewrite volume_of_last_var. simpl bind.
    rewrite points_range_middle.
    eexists. split.
    + f_equal. f_equal. rewrite fold_visit_point.
      rewrite last_var_app by discriminate. unfold last_var.
      destruct (rev (m :: mid')) as [| p r] eqn:E; [| reflexivity].
      apply (f_equal (@rev point)) in E. rewrite rev_involutive in E.
      discriminate.
    + rewrite fold_visit_area by exact Hb.
      cbn [bin_volume prev_price prev_volume]. ring.
Qed.

(** *** Geometry of the step function *)

(** [x] lies strictly before [y] in the direction of the prices. *)
Definition before (inc : bool) (x y : Q) : Prop :=
  if inc then x < y else y < x.

Lemma ordered_trans (inc : bool) (x y z : Q) :
  ordered inc x y -> ordered inc y z -> ordered inc x z.
Proof. unfold ordered. destruct inc; lra. Qed.

Lemma before_or_beyond (inc : bool) (x c : Q) : {before inc x c} + {ordered inc c x}.
Proof.
  unfold before, ordered. destruct inc.
  - destruct (Qlt_le_dec x c); auto.
  - destruct (Qlt_le_dec c x); auto.
Qed.

Lemma abs_split (inc : bool) (z c w : Q) :
  ordered inc z c -> ordered inc c w ->
  Qabs (w - z) == Qabs (c - z) + Qabs (w - c).
Proof.
  unfold ordered. destruct inc; intros H1 H2.
  - rewrite !Qabs_pos by lra. ring.
  - rewrite !Qabs_neg by lra. ring.
Qed.

Lemma step_area_compat (a a' v e e' : Q) (pts : list point) :
  a == a' -> e == e' -> step_area a v pts e == step_area a' v pts e'.
Proof.
  revert a a' v. induction pts as [| p pts IH]; intros a a' v Ha He;
    cbn [step_area].
  - now rewrite Ha, He.
  - rewrite Ha. now rewrite (IH (fst p) (fst p) (snd p) (Qeq_refl _) He).
Qed.

(** The volume in force after the points [mid], starting from [v]. *)
Definition vol_after (v : Q) (mid : list point) : Q :=
  match rev mid with
  | [] => v
  | p :: _ => snd p
  end.

Lemma vol_after_cons (v : Q) (m : point) (mid : list point) :
  vol_after v (m :: mid) = vol_after (snd m) mid.
Proof.
  unfold vol_after. simpl rev. now destruct (rev mid).
Qed.

Lemma last_volume_after (pre mid : list point) :
  last_volume (pre ++ mid) = vol_after (last_volume pre) mid.
Proof.
  unfold last_volume, vol_after. rewrite rev_app_distr.
  now destruct (rev mid).
Qed.

(** The area splits at any price [c] that separates [mid] from [post]. *)
Lemma step_area_app (inc : bool) (c e : Q) (mid post : list point) (a v : Q) :
  ordered inc a c ->
  Forall (fun p => ordered inc (fst p) c) mid ->
  Forall (fun p => ordered inc c (fst p)) post ->
  ordered inc c e ->
  step_area a v (mid ++ post) e
  == step_area a v mid c + step_area c (vol_after v mid) post e.
Proof.
  intros Ha Hmid Hpost He. revert a v Ha.
  induction Hmid as [| m mid Hm _ IH]; intros a v Ha.
  - cbn [app step_area]. change (vol_after v []) with v.
    destruct post as [| p post]; cbn [step_area].
    + rewrite (abs_split inc a c e Ha He). ring.
    + inversion Hpost as [| ? ? Hp _]; subst.
      rewrite (abs_split inc a c (fst p) Ha Hp). ring.
  - cbn [app step_area]. rewrite (IH (fst m) (snd m) Hm), vol_after_cons. ring.
Qed.

Lemma sorted_from_lower (inc : bool) (x : Q) (l : list point) :
  sorted_from inc x l -> Forall (fun p => ordered inc x (fst p)) l.
Proof.
  revert x. induction l as [| p l IH]; intros x H; [constructor |].
  destruct H as [Hp Hl]. constructor; [exact Hp |].
  eapply Forall_impl; [| apply (IH _ Hl)].
  intros q Hq. cbv beta in *. eapply ordered_trans; eassumption.
Qed.

(** A sorted list splits into the points before [hi] and those from
    [hi] on. *)
Lemma split_sorted (inc : bool) (hi : Q) (rest : list point) (x : Q) :
  sorted_from inc x rest ->
  exists mid post,
    rest = mid ++ post
    /\ Forall (fun p => ordered inc x (fst p) /\ before inc (fst p) hi) mid
    /\ Forall (fun p => ordered inc hi (fst p)) post
    /\ sorted_from inc hi post.
Proof.
  revert x. induction rest as [| p rest IH]; intros x H.
  - exists [], []. repeat split; constructor.
  - destruct H as [Hp Hrest].
    destruct (before_or_beyond inc (fst p) hi) as [Hb | Hb].
    + destruct (IH _ Hrest) as [mid [post [E [Hmid [Hpost Hs]]]]].
      exists (p :: mid), post. rewrite E. repeat split; try assumption.
      constructor; [now split |].
      eapply Forall_impl; [| exact Hmid].
      intros q [Hq1 Hq2]. split; [| exact Hq2].
      eapply ordered_trans; eassumption.
    + exists [], (p :: rest). repeat split; try constructor; try assumption.
      pose proof (sorted_from_lower inc _ _ Hrest) as Hl.
      eapply Forall_impl; [| exact Hl].
      intros q Hq. cbv beta in *. eapply ordered_trans; eassumption.
Qed.

Lemma Qnat_S (k : nat) : Qnat (S k) == Qnat k + 1.
Proof.
  unfold Qnat. rewrite Nat2Z.inj_succ, <- Z.add_1_r, inject_Z_plus. reflexivity.
Qed.

Lemma edge_S (inc : bool) (start bin_size : Q) (k : nat) :
  edge inc start bin_size (S k)
  == if inc then edge inc start bin_size k + bin_size
     else edge inc start bin_size k - bin_size.
Proof. unfold edge. destruct inc; rewrite Qnat_S; ring. Qed.

Lemma edge_step (inc : bool) (start bin_size : Q) (k : nat) :
  0 < bin_size ->
  before inc (edge inc start bin_size k) (edge inc start bin_size (S k)).
Proof.
  intros H. pose proof (edge_S inc start bin_size k) as E.
  unfold before. destruct inc; lra.
Qed.

Lemma edge_mono (inc : bool) (start bin_size : Q) (k m : nat) :
  0 < bin_size ->
  ordered inc (edge inc start bin_size k) (edge inc start bin_size (k + m)).
Proof.
  intros H. induction m as [| m IH].
  - rewrite Nat.add_0_r. unfold ordered. destruct inc; lra.
  - rewrite Nat.add_succ_r.
    pose proof (edge_step inc start bin_size (k + m) H) as Hs.
    unfold ordered, before in *. destruct inc; lra.
Qed.

(** *** The loop over the bins of a sorted curve *)

Lemma in_bin_before (inc : bool) (s e : Q) (p : point) :
  before inc (fst p) s -> in_bin inc s e p = false.
Proof.
  intros H. destruct (in_bin inc s e p) eqn:E; [| reflexivity].
  apply in_bin_iff in E. unfold before in H. destruct inc; lra.
Qed.

Lemma in_bin_beyond (inc : bool) (s e : Q) (p : point) :
  ordered inc e (fst p) -> in_bin inc s e p = false.
Proof.
  intros H. destruct (in_bin inc s e p) eqn:E; [| reflexivity].
  apply in_bin_iff in E. unfold ordered in H. destruct inc; lra.
Qed.

Lemma bins_loop_sorted (inc : bool) (bin_size start : Q) (Hsize : 0 < bin_size)
    (m : nat) :
  forall (b : nat) (pre rest : list point) (pp : pyvar),
    Forall (fun p => before inc (fst p) (edge inc start bin_size b)) pre ->
    sorted_from inc (edge inc start bin_size b) rest ->
    Forall (fun p => before inc (fst p) (edge inc start bin_size (b + m))) rest ->
    (pp = last_var pre
     \/ exists p tl, rest = p :: tl
                     /\ before inc (fst p) (edge inc start bin_size (S b))) ->
    exists vs,
      bins_loop (bin_body inc (pre ++ rest) bin_size start) (seq b m) pp = Ok vs
      /\ List.length vs = m
      /\ Qsum vs * bin_size
         == step_area (edge inc start bin_size b) (last_volume pre) rest
                      (edge inc start bin_size (b + m)).
Proof.
  induction m as [| m IH]; intros b pre rest pp Hpre Hsorted Hend Hpp.
  - assert (rest = []) as ->.
    { destruct rest as [| p rest]; [reflexivity |].
      destruct Hsorted as [H1 _]. inversion Hend as [| ? ? H2 _]; subst.
      rewrite Nat.add_0_r in H2. unfold ordered, before in *.
      destruct inc; lra. }
    exists []. repeat split. cbn [Qsum fold_right step_area].
    rewrite Nat.add_0_r.
    assert (E : edge inc start bin_size b - edge inc start bin_size b == 0) by ring.
    rewrite E. change (Qabs 0) with 0. ring.
  - set (lo := edge inc start bin_size b) in *.
    set (hi := edge inc start bin_size (S b)) in *.
    set (bin_end := if inc then lo + bin_size else lo - bin_size).
    assert (Ehi : hi == bin_end) by apply edge_S.
    assert (Hstep : before inc lo hi) by now apply edge_step.
    destruct (split_sorted inc hi rest lo Hsorted)
      as [mid [post [-> [Hmid [Hpost Hs]]]]].
    destruct (bin_body_sorted inc pre mid post bin_size start pp b)
      as [v [Ev Hv]].
    + lra.
    + eapply Forall_impl; [| exact Hpre].
      intros p Hp. now apply in_bin_before.
    + eapply Forall_impl; [| exact Hmid].
      intros p [Hp1 Hp2]. apply in_bin_iff.
      fold lo. fold bin_end. unfold ordered, before in *. destruct inc; lra.
    + eapply Forall_impl; [| exact Hpost].
      intros p Hp. apply in_bin_beyond. fold lo. fold bin_end.
      unfold ordered in *. destruct inc; lra.
    + intros ->. destruct Hpp as [Hpp | [p [tl [E Hp]]]]; [exact Hpp |].
      simpl in E. subst post. inversion Hpost as [| ? ? Hq _]; subst.
      fold hi in Hp. unfold ordered, before in *. destruct inc; lra.
    + fold lo in Hv. fold bin_end in Hv.
      destruct (IH (S b) (pre ++ mid) post (last_var (pre ++ mid)))
        as [vs [Evs [Hlen Hsum]]].
      * apply Forall_app. split.
        -- eapply Forall_impl; [| exact Hpre].
           intros p Hp. fold lo in Hp. fold hi.
           unfold before in *. destruct inc; lra.
        -- eapply Forall_impl; [| exact Hmid]. intros p [_ Hp]. exact Hp.
      * exact Hs.
      * apply Forall_app in Hend. destruct Hend as [_ Hend].
        now rewrite Nat.add_succ_r in Hend.
      * now left.
      * fold hi in Hsum. rewrite <- app_assoc in Evs.
        exists (v :: vs). cbn [seq bins_loop]. rewrite Ev. cbn [bind snd fst].
        rewrite Evs. cbn [bind].
        split; [reflexivity |]. split; [simpl; now rewrite Hlen |].
        cbn [Qsum fold_right]. fold (Qsum vs).
        rewrite Qmult_plus_distr_l, Hv, Hsum.
        rewrite last_volume_after.
        rewrite (step_area_compat lo lo _ bin_end hi mid (Qeq_refl _))
          by (symmetry; exact Ehi).
        rewrite Nat.add_succ_r. symmetry.
        apply (step_area_app inc).
        -- unfold ordered, before in *. destruct inc; lra.
        -- eapply Forall_impl; [| exact Hmid].
           intros p [_ Hp]. unfold ordered, before in *. destruct inc; lra.
        -- exact Hpost.
        -- apply (edge_mono inc start bin_size (S b) m Hsize).
Qed.

(** *** Area preservation *)




(** In binary64 the bins of width 0.1 from 0 on leave a gap: the end
    [0.5 + 0.1] of bin 5 is the float of 0.6 itself, which the half-open
    bin excludes, and the start [6 * 0.1] of bin 6 lies above it. *)
Lemma float_bins_leave_gap :
  Binary64.literal (1 # 10) == 3602879701896397 # 36028797018963968
  /\ Binary64.fadd (Binary64.fmul 5 (Binary64.literal (1 # 10)))
                   (Binary64.literal (1 # 10))
     == Binary64.literal (6 # 10)
  /\ Binary64.literal (6 # 10) < Binary64.fmul 6 (Binary64.literal (1 # 10)).
Proof. repeat split; vm_compute; reflexivity. Qed.



End DepthFacts.

(** ** Backtest simulator: invariants of a run *)

Module BacktestInvariants.
Import Backtest.

Definition csum_from (acc : cell) (l : list cell) : cell := fold_left add l acc.

(** What holds of the variables after any number of rows. *)
Record invariant (s : state) : Prop :=
  mk_invariant {
    inv_mode :
      List.length (longs s)
      = if is_buy_mode s then List.length (shorts s) else S (List.length (shorts s));
    inv_short_no : short_transactions s = List.length (longs s);
    inv_long_no : long_transactions s = List.length (shorts s);
    inv_short_profitable : (short_profitable s <= short_transactions s)%nat;
    inv_long_profitable : (long_profitable s <= long_transactions s)%nat;
    inv_short_profit : short_profit s = csum_from (Num 0) (map t_profit (longs s));
    inv_long_profit : long_profit s = csum_from (Num 0) (map t_profit (shorts s));
    inv_short_percent :
      short_profit_percent s = csum_from (Num 0) (map t_profit_percent (longs s));
    inv_long_percent :
      long_profit_percent s = csum_from (Num 0) (map t_profit_percent (shorts s));
    inv_longs_mode : Forall (fun t => t_mode t = true) (longs s);
    inv_shorts_mode : Forall (fun t => t_mode t = false) (shorts s);
    inv_longs_price :
      Forall (fun t => truthy (t_price t) = true /\ isnull (t_price t) = false) (longs s);
    inv_shorts_price :
      Forall (fun t => truthy (t_price t) = true /\ isnull (t_price t) = false) (shorts s);
    inv_first :
      match longs s with
      | [] => shorts s = []
      | t :: _ => t_profit t = Num 0 /\ t_profit_percent t = Num 0
      end
  }.

Lemma invariant_init : invariant init.
Proof. constructor; simpl; auto. Qed.

Lemma csum_from_snoc (acc x : cell) (l : list cell) :
  csum_from acc (l ++ [x]) = add (csum_from acc l) x.
Proof. unfold csum_from. now rewrite fold_left_app. Qed.

Lemma priced_split (c : cell) :
  negb (truthy c) || isnull c = false -> truthy c = true /\ isnull c = false.
Proof. destruct (truthy c), (isnull c); simpl; intros H; try discriminate; auto. Qed.

Lemma invariant_step (s : state) (r : tick) : invariant s -> invariant (step s r).
Proof.
  intros I. unfold step.
  destruct (negb (truthy (price r)) || isnull (price r)) eqn:Ep; [exact I |].
  apply priced_split in Ep.
  destruct I. destruct (is_buy_mode s) eqn:Em.
  - destruct (buy_signal r); [| constructor; rewrite ?Em; assumption].
    constructor; cbn [is_buy_mode longs shorts short_transactions long_transactions
                      short_profitable long_profitable short_profit long_profit
                      short_profit_percent long_profit_percent];
      rewrite ?length_app, ?map_app;
      cbn [List.length map t_profit t_profit_percent t_mode t_price];
      rewrite ?csum_from_snoc;
      try assumption; try lia; try congruence.
    + destruct (gt _ (Num 0)); lia.
    + apply Forall_app. split; [assumption |]. repeat constructor.
    + apply Forall_app. split; [assumption |]. repeat constructor; apply Ep.
    + destruct (longs s) as [| t l]; [| exact inv_first0].
      rewrite inv_first0. now split.
  - destruct (sell_signal r); [| constructor; rewrite ?Em; assumption].
    constructor; cbn [is_buy_mode longs shorts short_transactions long_transactions
                      short_profitable long_profitable short_profit long_profit
                      short_profit_percent long_profit_percent];
      rewrite ?length_app, ?map_app;
      cbn [List.length map t_profit t_profit_percent t_mode t_price];
      rewrite ?csum_from_snoc;
      try assumption; try lia; try congruence.
    + destruct (gt _ (Num 0)); lia.
    + apply Forall_app. split; [assumption |]. repeat constructor.
    + apply Forall_app. split; [assumption |]. repeat constructor; apply Ep.
    + destruct (longs s) as [| t l]; [simpl in inv_mode0; lia | exact inv_first0].
Qed.

Lemma invariant_fold (df : list tick) (s : state) :
  invariant s -> invariant (fold_left step df s).
Proof.
  revert s. induction df as [| r df IH]; intros s I; simpl; [exact I |].
  apply IH. now apply invariant_step.
Qed.

Lemma invariant_run (df : list tick) : invariant (run df).
Proof. apply invariant_fold, invariant_init. Qed.

(** Buys and sells alternate, starting with a buy: the list of buys is as
    long as the list of sells while a buy is awaited and one longer while a
    sell is awaited; every entry of [longs] was recorded in buy mode and
    every entry of [shorts] in sell mode. *)
Theorem trades_alternate (df : list tick) :
  let s := run df in
  List.length (longs s)
  = (if is_buy_mode s then List.length (shorts s) else S (List.length (shorts s)))
  /\ Forall (fun t => t_mode t = true) (longs s)
  /\ Forall (fun t => t_mode t = false) (shorts s).
Proof.
  destruct (invariant_run df). repeat split; assumption.
Qed.

(** The counters and sums of one side are kept on the list of the other
    side: the short counters count the recorded buys and the short profit
    is the sum of the profits stored with the buys; the long counters and
    the long profit belong to the recorded sells. *)
Theorem counters_follow_opposite_list (df : list tick) :
  let s := run df in
  short_transactions s = List.length (longs s)
  /\ long_transactions s = List.length (shorts s)
  /\ short_profit s = fold_left add (map t_profit (longs s)) (Num 0)
  /\ long_profit s = fold_left add (map t_profit (shorts s)) (Num 0)
  /\ short_profit_percent s = fold_left add (map t_profit_percent (longs s)) (Num 0)
  /\ long_profit_percent s = fold_left add (map t_profit_percent (shorts s)) (Num 0).
Proof.
  destruct (invariant_run df). repeat split; assumption.
Qed.

(** Every recorded transaction carries a price that is present and not zero. *)
Theorem recorded_prices_are_present (df : list tick) :
  let s := run df in
  Forall (fun t => truthy (t_price t) = true /\ isnull (t_price t) = false)
         (longs s ++ shorts s).
Proof.
  destruct (invariant_run df). apply Forall_app. split; assumption.
Qed.

Lemma ratio_unit (n d : nat) : (n <= d)%nat -> 0 <= ratio n d <= 1.
Proof.
  intros H. unfold ratio. destruct d as [| d]; [lra |].
  assert (Hd : 0 < Qnat (S d)) by (unfold Qnat, Qlt; simpl; lia).
  assert (Hn : 0 <= Qnat n) by (unfold Qnat, Qle; simpl; lia).
  assert (Hnd : Qnat n <= Qnat (S d))
    by (unfold Qnat; rewrite <- Zle_Qle; lia).
  split.
  - apply Qle_shift_div_l; [exact Hd | lra].
  - apply Qle_shift_div_r; [exact Hd | lra].
Qed.

(** The reported fractions of profitable transactions (long, short and
    combined) lie between 0 and 1, and the combined number of
    transactions is the number of recorded buys and sells. *)
Theorem reported_fractions_in_unit_interval (df : list tick) :
  let '(performance, long_performance, short_performance) :=
    simulated_trade_performance df in
  0 <= sp_profitable long_performance <= 1
  /\ 0 <= sp_profitable short_performance <= 1
  /\ 0 <= p_profitable performance <= 1
  /\ p_transaction_no performance
     = List.length (sp_transactions long_performance
                    ++ sp_transactions short_performance).
Proof.
  unfold simulated_trade_performance, report.
  destruct (invariant_run df).
  cbn [sp_profitable p_profitable p_transaction_no sp_transactions].
  repeat split; try (apply ratio_unit; lia).
  rewrite length_app. lia.
Qed.

(** The very first buy closes nothing: its profit and its profit percent
    are zero. *)
Theorem first_buy_has_no_profit (df : list tick) (t : trade) (rest : list trade)
    (H : longs (run df) = t :: rest) :
  t_profit t = Num 0 /\ t_profit_percent t = Num 0.
Proof.
  pose proof (inv_first _ (invariant_run df)) as F.
  rewrite H in F. exact F.
Qed.

Lemma first_buy_has_no_profit_witness :
  let df := [mk_tick 1 false true (Num 9); mk_tick 2 true false (Num 11);
             mk_tick 3 false true (Num 8)] in
  let t := mk_trade 1 true (Num 9) (Num 0) (Num 0) in
  t_profit t = Num 0 /\ t_profit_percent t = Num 0.
Proof.
  apply (first_buy_has_no_profit
           [mk_tick 1 false true (Num 9); mk_tick 2 true false (Num 11);
            mk_tick 3 false true (Num 8)]
           (mk_trade 1 true (Num 9) (Num 0) (Num 0))
           [mk_trade 3 true (Num 8) (sub (Num 11) (Num 8))
                     (div (mul (Num 100) (sub (Num 11) (Num 8))) (Num 11))]).
  reflexivity.
Defined.

End BacktestInvariants.

(** ** Score combination: range, sign and use by the signal rule *)

Module CombineRange.
Import Combine.
Import CombineFacts.

(** A cell that is missing or a number between [-1] and [1]. *)
Definition in_unit_range (c : cell) : Prop :=
  match c with
  | Num q => -1 <= q <= 1
  | NaN => True
  | PInf | NInf => False
  end.

Lemma relative_cell_value (b s : Q) :
  0 <= b -> 0 <= s -> ~ b + s == 0 ->
  relative_cell (mk_row (Num b) (Num s)) = Num (b / (b + s) * 2 - 1).
Proof.
  intros Hb Hs Hsum. unfold relative_cell. simpl.
  destruct (Qeq_bool (b + s) 0) eqn:E; [| reflexivity].
  apply Qeq_bool_iff in E. contradiction.
Qed.

Lemma share_bounds (b s : Q) :
  0 <= b -> 0 <= s -> ~ b + s == 0 -> 0 <= b / (b + s) <= 1.
Proof.
  intros Hb Hs Hsum. assert (Hpos : 0 < b + s) by lra.
  split.
  - apply Qle_shift_div_l; [exact Hpos | lra].
  - apply Qle_shift_div_r; [exact Hpos | lra].
Qed.

Lemma relative_cell_range (r : score_row) :
  nonneg_row r -> in_unit_range (relative_cell r).
Proof.
  intros Hr. pose proof Hr as Hr'.
  destruct r as [[b | | |] [s | | |]]; unfold nonneg_row in Hr';
    cbn [buy_score sell_score nonneg_score] in Hr'; try tauto.
  destruct Hr' as [Hb Hs].
  destruct (Qeq_dec (b + s) 0) as [E | E].
  - assert (N : isnull (relative_cell (mk_row (Num b) (Num s))) = true)
      by (apply (relative_missing_iff _ Hr); exact E).
    destruct (relative_cell (mk_row (Num b) (Num s))); try discriminate. exact I.
  - rewrite (relative_cell_value b s Hb Hs E).
    pose proof (share_bounds b s Hb Hs E). simpl. lra.
Qed.

Lemma in_unit_range_neg (c : cell) : in_unit_range c -> in_unit_range (neg c).
Proof. destruct c; simpl; try tauto. lra. Qed.

(** On non-negative finite scores both columns written by the relative
    combination hold only missing values and numbers in [-1, +1]. *)
Theorem relative_scores_in_unit_range (df : frame) (H : Forall nonneg_row df) :
  Forall in_unit_range (buy_column_out (combine_scores_relative df))
  /\ Forall in_unit_range (sell_column_out (combine_scores_relative df)).
Proof.
  change (sell_column_out (combine_scores_relative df))
    with (map neg (buy_column_out (combine_scores_relative df))).
  rewrite relative_row_wise.
  split; induction H as [| r df Hr _ IH]; simpl; constructor;
    auto using relative_cell_range, in_unit_range_neg.
Qed.

Lemma relative_scores_in_unit_range_witness :
  let df := [mk_row (Num 3) (Num 1); mk_row (Num 0) (Num 0)] in
  Forall in_unit_range (buy_column_out (combine_scores_relative df))
  /\ Forall in_unit_range (sell_column_out (combine_scores_relative df)).
Proof.
  apply relative_scores_in_unit_range.
  repeat constructor; simpl; lra.
Defined.

(** The frame after [combine_scores] has overwritten its two columns. *)
Definition combined_frame (df : frame) (m : mode) : frame :=
  zip_with mk_row (fst (combine_scores df m)) (snd (combine_scores df m)).

(** After the difference combination the rule fires a buy exactly when
    the raw buy score exceeds the raw sell score by a positive amount that
    reaches the buy threshold, and a sell in the mirrored case. *)
Theorem rule_after_difference (df : frame) (bt st : Q)
    (H : Forall (fun r => exists b s, r = mk_row (Num b) (Num s)) df) :
  Forall2 (fun r signals =>
             exists b s, r = mk_row (Num b) (Num s)
               /\ (fst signals = true <-> s < b /\ bt <= b - s)
               /\ (snd signals = true <-> b < s /\ st <= s - b))
          df
          (map (fun row => Rule.apply_rule_with_score_thresholds_one_row row bt st)
               (combined_frame df Difference)).
Proof.
  unfold combined_frame, combine_scores, combine_scores_difference, col, zip_with.
  cbn [fst snd buy_column_out sell_column_out].
  induction H as [| r df [b [s ->]] _ IH]; cbn [map combine fst snd].
  - constructor.
  - constructor; [| exact IH].
    exists b, s. split; [reflexivity |].
    unfold Rule.apply_rule_with_score_thresholds_one_row.
    rewrite !RuleFacts.py_and_andb.
    cbn [buy_score sell_score fst snd sub neg gt ge lt le].
    rewrite !andb_true_iff, !Qlt_bool_iff, !Qle_bool_iff.
    split; split; intros [H1 H2]; split; lra.
Qed.

Lemma rule_after_difference_witness :
  let df := [mk_row (Num 3) (Num 1)] in
  Forall2 (fun r signals =>
             exists b s, r = mk_row (Num b) (Num s)
               /\ (fst signals = true <-> s < b /\ 1 <= b - s)
               /\ (snd signals = true <-> b < s /\ 1 <= s - b))
          df
          (map (fun row => Rule.apply_rule_with_score_thresholds_one_row row 1 1)
               (combined_frame df Difference)).
Proof.
  apply (rule_after_difference [mk_row (Num 3) (Num 1)] 1 1).
  repeat constructor. eauto.
Defined.

End CombineRange.

(** ** Order book helpers *)

Module BookFacts.
Import Book.

Lemma accumulate_from_prices (a : Q) (depth : list order) :
  map fst (accumulate_from a depth) = map fst depth.
Proof.
  revert a. induction depth as [| p tl IH]; intros a; simpl; [reflexivity |].
  now rewrite IH.
Qed.

Lemma accumulate_from_length (a : Q) (depth : list order) :
  List.length (accumulate_from a depth) = List.length depth.
Proof.
  revert a. induction depth as [| p tl IH]; intros a; simpl; [reflexivity |].
  now rewrite IH.
Qed.

Lemma accumulate_from_nth (a : Q) (depth : list order) (i : nat) :
  (i < List.length depth)%nat ->
  nth i (map snd (accumulate_from a depth)) 0
  == a + Qsum (firstn (S i) (map snd depth)).
Proof.
  revert a i. induction depth as [| p tl IH]; intros a i Hi; [simpl in Hi; lia |].
  destruct i as [| i].
  - cbn [accumulate_from map nth firstn]. unfold Qsum. cbn [fold_right snd]. lra.
  - cbn [accumulate_from map nth]. simpl List.length in Hi.
    rewrite IH by lia.
    unfold Qsum. cbn [firstn fold_right]. lra.
Qed.

(** [depth_accumulate] keeps the prices and the number of orders, and the
    volume it leaves at a position is the sum of the volumes up to and
    including that position. *)
Theorem depth_accumulate_prefix_sums (depth : list order) (start end_ : option Q) :
  map fst (depth_accumulate depth start end_) = map fst depth
  /\ List.length (depth_accumulate depth start end_) = List.length depth
  /\ forall i, (i < List.length depth)%nat ->
       nth i (map snd (depth_accumulate depth start end_)) 0
       == Qsum (firstn (S i) (map snd depth)).
Proof.
  unfold depth_accumulate. split; [apply accumulate_from_prices |]. split.
  - apply accumulate_from_length.
  - intros i Hi. rewrite accumulate_from_nth by exact Hi. lra.
Qed.

(** Volumes that do not decrease along the list. *)
Fixpoint nondecreasing_from (v : Q) (l : list order) : Prop :=
  match l with
  | [] => True
  | o :: tl => v <= snd o /\ nondecreasing_from (snd o) tl
  end.

Lemma accumulate_from_nondecreasing (a : Q) (depth : list order) :
  Forall (fun o => 0 <= snd o) depth ->
  nondecreasing_from a (accumulate_from a depth).
Proof.
  intros H. revert a. induction H as [| p tl Hp _ IH]; intros a; simpl; [exact I |].
  split; [lra | apply IH].
Qed.

(** With volumes that are not negative the accumulated curve never
    decreases, and starts at or above zero. *)
Theorem depth_accumulate_monotone (depth : list order) (start end_ : option Q)
    (H : Forall (fun o => 0 <= snd o) depth) :
  nondecreasing_from 0 (depth_accumulate depth start end_).
Proof.
  unfold depth_accumulate.
  apply accumulate_from_nondecreasing.
  exact H.
Qed.

Lemma depth_accumulate_monotone_witness :
  nondecreasing_from 0 (depth_accumulate [(100, 5); (101, 0); (102, 3)] None None).
Proof.
  apply depth_accumulate_monotone.
  repeat constructor; simpl; lra.
Defined.

(** *** Looking up a volume by price and a price by volume *)

Lemma last_order_snoc (l : list order) (o : order) : last_order (l ++ [o]) = Ok o.
Proof. unfold last_order. now rewrite rev_unit. Qed.

Lemma last_order_inv (l : list order) (o : order) :
  last_order l = Ok o -> exists l', l = l' ++ [o].
Proof.
  unfold last_order. destruct (rev l) as [| p r] eqn:E; [discriminate |].
  intros H. injection H as ->. exists (rev r).
  apply (f_equal (@rev order)) in E. now rewrite rev_involutive in E.
Qed.

Lemma last_order_error (l : list order) : last_order l = Raise IndexError <-> l = [].
Proof.
  unfold last_order. split.
  - destruct (rev l) as [| o r] eqn:E; [| discriminate].
    intros _. apply (f_equal (@rev order)) in E. now rewrite rev_involutive in E.
  - now intros ->.
Qed.

Lemma last_order_in (l : list order) (o : order) : last_order l = Ok o -> In o l.
Proof.
  unfold last_order. destruct (rev l) as [| p r] eqn:E; [discriminate |].
  intros H. injection H as <-. apply in_rev. rewrite E. now left.
Qed.

Lemma filter_nil_iff {A : Type} (f : A -> bool) (l : list A) :
  filter f l = [] <-> Forall (fun x => f x = false) l.
Proof.
  induction l as [| a l IH]; simpl.
  - split; [constructor | reflexivity].
  - destruct (f a) eqn:E.
    + split; [discriminate |]. intros H. inversion H; congruence.
    + rewrite IH. split; [now constructor |]. intros H. now inversion H.
Qed.

Lemma price_to_volume_unfold (side : string) (depth : depth_data) (price_limit : Q)
    (orders : list order) :
  side_orders side depth = Some orders ->
  price_to_volume side depth price_limit
  = let* o := last_order (filter (within_limit side price_limit) orders) in
    Ok (Some (snd o)).
Proof.
  unfold side_orders, price_to_volume, within_limit.
  destruct (String.eqb side "buy"); [intros H; injection H as <-; reflexivity |].
  destruct (String.eqb side "sell"); [intros H; injection H as <-; reflexivity |].
  discriminate.
Qed.

Lemma volume_to_price_unfold (side : string) (depth : depth_data) (volume_limit : Q)
    (orders : list order) :
  side_orders side depth = Some orders ->
  volume_to_price side depth volume_limit
  = let* o := last_order (filter (fun o => Qle_bool (snd o) volume_limit) orders) in
    Ok (Some (fst o)).
Proof.
  unfold side_orders, volume_to_price.
  destruct (String.eqb side "buy"); [intros H; injection H as <-; reflexivity |].
  destruct (String.eqb side "sell"); [intros H; injection H as <-; reflexivity |].
  discriminate.
Qed.

(** [price_to_volume] answers [None] only for a side other than ["buy"]
    and ["sell"]; for these two sides it raises [IndexError] exactly when
    no order of the side lies within the limit, a missing side of the book
    counting as empty. *)
Theorem price_to_volume_out_of_book (side : string) (depth : depth_data) (price_limit : Q) :
  (price_to_volume side depth price_limit = Ok None <-> side_orders side depth = None)
  /\ forall orders, side_orders side depth = Some orders ->
       (price_to_volume side depth price_limit = Raise IndexError
        <-> Forall (fun o => within_limit side price_limit o = false) orders).
Proof.
  split.
  - destruct (side_orders side depth) as [orders |] eqn:E.
    + rewrite (price_to_volume_unfold side depth price_limit orders E).
      split; [| discriminate].
      destruct (last_order _); simpl; discriminate.
    + split; [reflexivity | intros _].
      unfold side_orders in E. unfold price_to_volume.
      destruct (String.eqb side "buy"); [discriminate |].
      destruct (String.eqb side "sell"); [discriminate | reflexivity].
  - intros orders E.
    rewrite (price_to_volume_unfold side depth price_limit orders E).
    rewrite <- filter_nil_iff, <- last_order_error.
    destruct (last_order _) as [o | e]; simpl; split; congruence.
Qed.

Lemma price_to_volume_out_of_book_witness :
  let depth := mk_depth None (Some [(101, 2); (102, 5)]) in
  price_to_volume "buy" depth 100 = Raise IndexError
  <-> Forall (fun o => within_limit "buy" 100 o = false) [(101, 2); (102, 5)].
Proof.
  exact (proj2 (price_to_volume_out_of_book "buy"
                  (mk_depth None (Some [(101, 2); (102, 5)])) 100)
               [(101, 2); (102, 5)] eq_refl).
Defined.

Lemma nondecreasing_from_snoc (v : Q) (l : list order) (x : order) :
  nondecreasing_from v (l ++ [x]) ->
  nondecreasing_from v l /\ v <= snd x /\ Forall (fun o => snd o <= snd x) l.
Proof.
  revert v. induction l as [| o l IH]; intros v H.
  - simpl in *. repeat split; [tauto | constructor].
  - destruct H as [H1 H2]. destruct (IH _ H2) as [A [B C]].
    repeat split; try assumption; [lra |]. now constructor.
Qed.

Lemma last_filter_monotone (f g : order -> bool) (l : list order) (v : Q) (a b : order) :
  (forall o, f o = true -> g o = true) ->
  nondecreasing_from v l ->
  last_order (filter f l) = Ok a ->
  last_order (filter g l) = Ok b ->
  snd a <= snd b.
Proof.
  intros Hfg. revert a b. induction l as [| x l IH] using rev_ind; intros a b Hs Ha Hb.
  - discriminate.
  - apply nondecreasing_from_snoc in Hs. destruct Hs as [Hs [_ Hx]].
    rewrite filter_app in Ha, Hb. cbn [filter] in Ha, Hb.
    destruct (g x) eqn:Eg.
    + rewrite last_order_snoc in Hb. injection Hb as <-.
      destruct (f x) eqn:Ef.
      * rewrite last_order_snoc in Ha. injection Ha as <-. lra.
      * rewrite app_nil_r in Ha. apply last_order_in in Ha.
        apply filter_In in Ha. destruct Ha as [Ha _].
        exact (proj1 (Forall_forall _ _) Hx a Ha).
    + destruct (f x) eqn:Ef; [rewrite (Hfg x Ef) in Eg; discriminate |].
      rewrite app_nil_r in Ha, Hb. now apply IH.
Qed.

(** On a side whose accumulated volumes do not decrease, a more generous
    price limit never yields a smaller volume. *)
Theorem price_to_volume_monotone (side : string) (depth : depth_data)
    (orders : list order) (p1 p2 v1 v2 : Q)
    (Hside : side_orders side depth = Some orders)
    (Hsorted : nondecreasing_from 0 orders)
    (Hlimits : if String.eqb side "buy" then p1 <= p2 else p2 <= p1)
    (H1 : price_to_volume side depth p1 = Ok (Some v1))
    (H2 : price_to_volume side depth p2 = Ok (Some v2)) :
  v1 <= v2.
Proof.
  rewrite (price_to_volume_unfold side depth p1 orders Hside) in H1.
  rewrite (price_to_volume_unfold side depth p2 orders Hside) in H2.
  destruct (last_order (filter (within_limit side p1) orders)) as [a | e] eqn:Ea;
    [| discriminate].
  destruct (last_order (filter (within_limit side p2) orders)) as [b | e] eqn:Eb;
    [| discriminate].
  simpl in H1, H2. injection H1 as <-. injection H2 as <-.
  apply (last_filter_monotone (within_limit side p1) (within_limit side p2) orders 0);
    try assumption.
  intros o. unfold within_limit.
  destruct (String.eqb side "buy"); rewrite !Qle_bool_iff; lra.
Qed.

Lemma price_to_volume_monotone_witness :
  (2 : Q) <= 5.
Proof.
  apply (price_to_volume_monotone "buy" (mk_depth None (Some [(101, 2); (102, 5)]))
           [(101, 2); (102, 5)] 101 102 2 5).
  - reflexivity.
  - simpl. repeat split; lra.
  - simpl. lra.
  - reflexivity.
  - reflexivity.
Defined.

(** Volumes that strictly increase along the list. *)
Fixpoint increasing_from (v : Q) (l : list order) : Prop :=
  match l with
  | [] => True
  | o :: tl => v < snd o /\ increasing_from (snd o) tl
  end.

Lemma increasing_from_lower (v : Q) (l : list order) :
  increasing_from v l -> Forall (fun o => v < snd o) l.
Proof.
  revert v. induction l as [| o l IH]; intros v H; [constructor |].
  destruct H as [H1 H2]. constructor; [exact H1 |].
  eapply Forall_impl; [| apply (IH _ H2)]. simpl. intros. lra.
Qed.

Lemma last_filter_by_volume (l : list order) (v : Q) (o : order) :
  increasing_from v l -> In o l ->
  last_order (filter (fun x => Qle_bool (snd x) (snd o)) l) = Ok o.
Proof.
  revert v. induction l as [| x l IH]; intros v Hs Hin; [contradiction |].
  destruct Hs as [Hv Hs]. cbn [filter].
  pose proof (increasing_from_lower _ _ Hs) as Hl.
  destruct Hin as [-> | Hin].
  - replace (Qle_bool (snd o) (snd o)) with true
      by (symmetry; apply Qle_bool_iff; lra).
    replace (filter (fun x => Qle_bool (snd x) (snd o)) l) with (@nil order);
      [reflexivity |].
    symmetry. apply filter_nil_iff.
    eapply Forall_impl; [| exact Hl]. intros y Hy. cbv beta in *.
    apply Qle_bool_false. exact Hy.
  - pose proof (proj1 (Forall_forall _ _) Hl o Hin) as Ho. cbv beta in Ho.
    replace (Qle_bool (snd x) (snd o)) with true
      by (symmetry; apply Qle_bool_iff; lra).
    specialize (IH _ Hs Hin).
    destruct (last_order_inv _ _ IH) as [l' E]. rewrite E.
    change (x :: l' ++ [o]) with ((x :: l') ++ [o]). apply last_order_snoc.
Qed.

(** On a side whose accumulated volumes strictly increase, the volume
    found for a price limit leads back to the price of the last order
    within that limit: asking [volume_to_price] for the volume returned by
    [price_to_volume] gives a price that is itself within the limit and
    carries that same volume. *)
Theorem price_volume_round_trip (side : string) (depth : depth_data)
    (orders : list order) (price_limit volume : Q)
    (Hside : side_orders side depth = Some orders)
    (Hsorted : increasing_from 0 orders)
    (H : price_to_volume side depth price_limit = Ok (Some volume)) :
  exists o,
    In o orders
    /\ within_limit side price_limit o = true
    /\ snd o = volume
    /\ volume_to_price side depth volume = Ok (Some (fst o)).
Proof.
  rewrite (price_to_volume_unfold side depth _ orders Hside) in H.
  destruct (last_order (filter (within_limit side price_limit) orders)) as [o | e] eqn:E;
    [| discriminate].
  simpl in H. injection H as <-.
  pose proof (last_order_in _ _ E) as Hin.
  apply filter_In in Hin. destruct Hin as [Hin Hlim].
  exists o. split; [exact Hin |]. split; [exact Hlim |]. split; [reflexivity |].
  rewrite (volume_to_price_unfold side depth _ orders Hside).
  now rewrite (last_filter_by_volume orders 0 o Hsorted Hin).
Qed.

Lemma price_volume_round_trip_witness :
  let depth := mk_depth None (Some [(101, 2); (102, 5)]) in
  exists o,
    In o [(101, 2); (102, 5)]
    /\ within_limit "buy" 102 o = true
    /\ snd o = 5
    /\ volume_to_price "buy" depth 5 = Ok (Some (fst o)).
Proof.
  apply (price_volume_round_trip "buy" (mk_depth None (Some [(101, 2); (102, 5)]))
           [(101, 2); (102, 5)] 102 5).
  - reflexivity.
  - simpl. repeat split; lra.
  - reflexivity.
Defined.

End BookFacts.

(** ** Depth discretizer: errors and edge cases *)

Module DepthEdges.
Import Depth.
Import DepthFacts.

Lemma bin_body_unbound_empty (inc : bool) (depth : list point) (bin_size start : Q)
    (b : nat) :
  let bin_start := edge inc start bin_size b in
  let bin_end := if inc then bin_start + bin_size else bin_start - bin_size in
  Forall (fun q => in_bin inc bin_start bin_end q = false) depth ->
  bin_body inc depth bin_size start Unbound b = Raise UnboundLocalError.
Proof.
  intros bin_start bin_end H.
  unfold bin_body. fold (edge inc start bin_size b). fold bin_start. fold bin_end.
  change (bin_point_ids inc bin_start bin_end depth)
    with (ids_where (in_bin inc bin_start bin_end) 0 depth).
  now rewrite (ids_where_none _ 0 depth H).
Qed.

Lemma edge_zero (inc : bool) (start bin_size : Q) : edge inc start bin_size 0 == start.
Proof.
  unfold edge, Qnat. simpl Z.of_nat. change (inject_Z 0) with 0. destruct inc; ring.
Qed.

(** With a valid side, a non-empty curve and a positive bin size,
    [discretize] returns its bins exactly when some point lies in the
    first bin; otherwise (a start more than one bin width away from every
    point) it fails with [UnboundLocalError], since [prev_point] is read
    before it was ever assigned. *)
Theorem discretize_needs_first_bin (side : string) (inc : bool) (depth : list point)
    (bin_size : Q) (start : option Q) (s last : Q)
    (Hside : price_increase_of side = Some inc)
    (Hsize : 0 < bin_size)
    (Hstart : start_or_first start depth = Ok s)
    (Hlast : last_price depth = Ok last) :
  (existsb (in_bin inc s (if inc then s + bin_size else s - bin_size)) depth = true
   -> exists bins, discretize side depth bin_size start = Ok bins)
  /\ (existsb (in_bin inc s (if inc then s + bin_size else s - bin_size)) depth = false
      -> discretize side depth bin_size start = Raise UnboundLocalError).
Proof.
  pose proof (bin_count_positive (last - s) bin_size Hsize) as Hpos.
  unfold discretize. rewrite Hstart, Hlast. cbn [bind].
  rewrite (bin_count_of_positive last s bin_size Hsize). cbn [bind].
  rewrite Hside. split; intros Hocc.
  - destruct (bins_loop_from_occupied inc depth bin_size s
                (Z.to_nat (Qfloor (Qabs (last - s) / bin_size) + 1)) Hocc)
      as [vs [E _]].
    now exists vs.
  - destruct (Z.to_nat (Qfloor (Qabs (last - s) / bin_size) + 1)) as [| n] eqn:En;
      [lia |].
    cbn [seq bins_loop]. rewrite bin_body_unbound_empty; [reflexivity |].
    pose proof (edge_zero inc s bin_size) as E0.
    apply Forall_forall. intros q Hq.
    destruct (in_bin inc (edge inc s bin_size 0) _ q) eqn:Eb; [| reflexivity].
    apply in_bin_iff in Eb.
    assert (T : existsb (in_bin inc s (if inc then s + bin_size else s - bin_size))
                        depth = true).
    { apply existsb_exists. exists q. split; [exact Hq |].
      apply in_bin_iff. destruct inc; lra. }
    congruence.
Qed.

Lemma discretize_needs_first_bin_witness :
  (exists bins, discretize "ask" [(100, 5); (101, 7)] 1 (Some 100) = Ok bins)
  /\ discretize "ask" [(100, 5); (101, 7)] 1 (Some 98) = Raise UnboundLocalError.
Proof.
  split.
  - apply (proj1 (discretize_needs_first_bin "ask" true [(100, 5); (101, 7)] 1
                    (Some 100) 100 101 eq_refl eq_refl eq_refl eq_refl)).
    reflexivity.
  - apply (proj2 (discretize_needs_first_bin "ask" true [(100, 5); (101, 7)] 1
                    (Some 98) 98 101 eq_refl eq_refl eq_refl eq_refl)).
    reflexivity.
Defined.

(** On a non-empty curve a zero bin size fails with [ZeroDivisionError]
    whatever the side, and a side that is neither an ask nor a bid name
    fails with [UnboundLocalError] for every other bin size. *)
Theorem discretize_bad_arguments (side : string) (p : point) (depth : list point)
    (bin_size : Q) (start : option Q) :
  (bin_size == 0 -> discretize side (p :: depth) bin_size start = Raise ZeroDivisionError)
  /\ (~ bin_size == 0 -> price_increase_of side = None ->
      discretize side (p :: depth) bin_size start = Raise UnboundLocalError).
Proof.
  assert (Hs : exists s, start_or_first start (p :: depth) = Ok s)
    by (destruct start; simpl; eauto).
  assert (Hl : exists last, last_price (p :: depth) = Ok last).
  { unfold last_price. destruct (rev (p :: depth)) as [| q r] eqn:E; [| eauto].
    apply (f_equal (@rev point)) in E. rewrite rev_involutive in E. discriminate. }
  destruct Hs as [s Hs]. destruct Hl as [last Hl].
  unfold discretize. rewrite Hs, Hl. cbn [bind]. unfold bin_count_of.
  split.
  - intros H. apply Qeq_bool_iff in H. now rewrite H.
  - intros H Hside.
    destruct (Qeq_bool bin_size 0) eqn:E; [apply Qeq_bool_iff in E; contradiction |].
    cbn [bind]. now rewrite Hside.
Qed.

Lemma discretize_bad_arguments_witness :
  discretize "ask" [(100, 5)] 0 None = Raise ZeroDivisionError
  /\ discretize "middle" [(100, 5)] 1 None = Raise UnboundLocalError.
Proof.
  split.
  - apply (proj1 (discretize_bad_arguments "ask" (100, 5) [] 0 None)).
    reflexivity.
  - apply (proj2 (discretize_bad_arguments "middle" (100, 5) [] 1 None)).
    + discriminate.
    + reflexivity.
Defined.

(** A negative bin size is not rejected: with a valid side and a
    non-empty curve, [discretize] returns no bin at all when the last
    price differs from the start, and fails with [UnboundLocalError] when
    they coincide. *)
Theorem discretize_negative_bin_size (side : string) (inc : bool) (depth : list point)
    (bin_size : Q) (start : option Q) (s last : Q)
    (Hside : price_increase_of side = Some inc)
    (Hsize : bin_size < 0)
    (Hstart : start_or_first start depth = Ok s)
    (Hlast : last_price depth = Ok last) :
  (~ last == s -> discretize side depth bin_size start = Ok [])
  /\ (last == s -> discretize side depth bin_size start = Raise UnboundLocalError).
Proof.
  unfold discretize. rewrite Hstart, Hlast. cbn [bind]. unfold bin_count_of.
  destruct (Qeq_bool bin_size 0) eqn:E; [apply Qeq_bool_iff in E; lra |].
  cbn [bind]. rewrite Hside.
  split; intros H.
  - assert (Hd : 0 < Qabs (last - s)).
    { apply Qabs_case; intros; lra. }
    assert (Hneg : Qabs (last - s) / bin_size < 0).
    { assert (E1 : Qabs (last - s) / bin_size == - (Qabs (last - s) / - bin_size))
        by (field; lra).
      rewrite E1.
      assert (0 < Qabs (last - s) / - bin_size)
        by (apply Qlt_shift_div_l; lra).
      lra. }
    pose proof (Qfloor_le (Qabs (last - s) / bin_size)) as Hf.
    assert (Hz : (Qfloor (Qabs (last - s) / bin_size) < 0)%Z).
    { rewrite Zlt_Qlt. change (inject_Z 0) with 0. lra. }
    replace (Z.to_nat (Qfloor (Qabs (last - s) / bin_size) + 1)) with 0%nat by lia.
    reflexivity.
  - assert (Hr : Qabs (last - s) / bin_size == 0).
    { assert (E0 : last - s == 0) by lra. rewrite E0. change (Qabs 0) with 0.
      field. lra. }
    rewrite (Qfloor_comp _ _ Hr). change (Qfloor 0) with 0%Z.
    change (Z.to_nat (0 + 1)) with 1%nat.
    cbn [seq bins_loop]. rewrite bin_body_unbound_empty; [reflexivity |].
    apply Forall_forall. intros q _.
    destruct (in_bin inc (edge inc s bin_size 0) _ q) eqn:Eb; [| reflexivity].
    apply in_bin_iff in Eb. destruct inc; lra.
Qed.

Lemma discretize_negative_bin_size_witness :
  discretize "ask" [(100, 5); (101, 7)] (-1) None = Ok []
  /\ discretize "ask" [(100, 5)] (-1) None = Raise UnboundLocalError.
Proof.
  split.
  - apply (proj1 (discretize_negative_bin_size "ask" true [(100, 5); (101, 7)] (-1)
                    None 100 101 eq_refl eq_refl eq_refl eq_refl)).
    discriminate.
  - apply (proj2 (discretize_negative_bin_size "ask" true [(100, 5)] (-1)
                    None 100 100 eq_refl eq_refl eq_refl eq_refl)).
    reflexivity.
Defined.

(** A curve of a single point yields, with the default start, one bin
    that holds the volume of the point. *)
Theorem discretize_single_point (side : string) (inc : bool) (p : point) (bin_size : Q)
    (Hside : price_increase_of side = Some inc)
    (Hsize : 0 < bin_size) :
  exists v, discretize side [p] bin_size None = Ok [v] /\ v == snd p.
Proof.
  unfold discretize. cbn [start_or_first first_price last_price rev app bind].
  rewrite (bin_count_of_positive (fst p) (fst p) bin_size Hsize). cbn [bind].
  rewrite Hside.
  assert (Hr : Qabs (fst p - fst p) / bin_size == 0).
  { assert (E0 : fst p - fst p == 0) by ring. rewrite E0. change (Qabs 0) with 0.
    field. lra. }
  rewrite (Qfloor_comp _ _ Hr). change (Qfloor 0) with 0%Z.
  change (Z.to_nat (0 + 1)) with 1%nat.
  destruct (bins_loop_sorted inc bin_size (fst p) Hsize 1 0 [] [p] Unbound)
    as [vs [E [Hlen Hsum]]].
  - constructor.
  - split; [| exact I]. unfold edge, Qnat, ordered. simpl Z.of_nat.
    change (inject_Z 0) with 0. destruct inc; lra.
  - repeat constructor. unfold edge, Qnat, before. simpl Z.of_nat.
    change (inject_Z 1) with 1. destruct inc; lra.
  - right. exists p, []. split; [reflexivity |].
    unfold edge, Qnat, before. simpl Z.of_nat.
    change (inject_Z 1) with 1. destruct inc; lra.
  - cbn [app] in E. rewrite E.
    destruct vs as [| v [| w vs]]; try discriminate.
    exists v. split; [reflexivity |].
    cbn [Qsum fold_right step_area Nat.add] in Hsum.
    change (last_volume []) with 0 in Hsum.
    unfold edge, Qnat in Hsum. simpl Z.of_nat in Hsum.
    change (inject_Z 0) with 0 in Hsum. change (inject_Z 1) with 1 in Hsum.
    assert (A : Qabs (fst p - (if inc then fst p + 0 * bin_size
                               else fst p - 0 * bin_size)) == 0).
    { destruct inc.
      - assert (E0 : fst p - (fst p + 0 * bin_size) == 0) by ring.
        rewrite E0. reflexivity.
      - assert (E0 : fst p - (fst p - 0 * bin_size) == 0) by ring.
        rewrite E0. reflexivity. }
    assert (B : Qabs ((if inc then fst p + 1 * bin_size else fst p - 1 * bin_size)
                      - fst p) == bin_size).
    { destruct inc.
      - rewrite Qabs_pos by lra. ring.
      - rewrite Qabs_neg by lra. ring. }
    rewrite A, B in Hsum.
    assert (C : v * bin_size == snd p * bin_size) by lra.
    assert (Hnz : ~ bin_size == 0) by lra.
    exact (proj1 (Qmult_inj_r v (snd p) bin_size Hnz) C).
Qed.

Lemma discretize_single_point_witness :
  exists v, discretize "bid" [(100, 5)] (1 # 2) None = Ok [v] /\ v == snd (100, 5).
Proof.
  apply (discretize_single_point "bid" false (100, 5) (1 # 2)); reflexivity.
Defined.

End DepthEdges.

(** ** Depth discretizer: the bins of non-negative volumes *)

Module DepthSign.
Import Depth.
Import DepthFacts.

Definition var_nonneg (pp : pyvar) : Prop :=
  match pp with
  | Bound p => 0 <= snd p
  | Unbound | PyNone => True
  end.

Record cursor_nonneg (c : cursor) : Prop :=
  mk_cursor_nonneg {
    cn_volume : 0 <= prev_volume c;
    cn_bin : 0 <= bin_volume c;
    cn_point : var_nonneg (prev_point c)
  }.

Lemma share_nonneg (v d bin_size : Q) :
  0 < bin_size -> 0 <= v -> 0 <= v * (Qabs d / bin_size).
Proof.
  intros Hb Hv. apply Qmult_le_0_compat; [exact Hv |].
  now apply ratio_nonneg.
Qed.

Lemma visit_nonneg (bin_size : Q) (c : cursor) (p : point) :
  0 < bin_size -> cursor_nonneg c -> 0 <= snd p -> cursor_nonneg (visit bin_size c p).
Proof.
  intros Hb [H1 H2 H3] Hp. constructor; cbn [visit prev_volume bin_volume prev_point];
    try assumption.
  pose proof (share_nonneg (prev_volume c) (fst p - prev_price c) bin_size Hb H1).
  lra.
Qed.

Lemma fold_visit_nonneg (bin_size : Q) (pts : list point) (c : cursor) :
  0 < bin_size -> cursor_nonneg c -> Forall (fun p => 0 <= snd p) pts ->
  cursor_nonneg (fold_left (visit bin_size) pts c).
Proof.
  intros Hb Hc H. revert c Hc. induction H as [| p pts Hp _ IH]; intros c Hc; simpl.
  - exact Hc.
  - apply IH. now apply visit_nonneg.
Qed.

Lemma close_bin_nonneg (bin_size e : Q) (c : cursor) :
  0 < bin_size -> cursor_nonneg c -> 0 <= close_bin bin_size e c.
Proof.
  intros Hb [H1 H2 _]. unfold close_bin.
  pose proof (share_nonneg (prev_volume c) (e - prev_price c) bin_size Hb H1).
  lra.
Qed.

Lemma points_range_sub (depth : list point) (first last : nat) (p : point) :
  In p (points_range depth first last) -> In p depth.
Proof.
  unfold points_range. intros H.
  rewrite <- (firstn_skipn first depth). apply in_or_app. right.
  set (tl := skipn first depth) in *.
  rewrite <- (firstn_skipn (S last - first) tl). apply in_or_app. now left.
Qed.

Lemma bin_body_nonneg (inc : bool) (depth : list point) (bin_size start : Q)
    (pp : pyvar) (b : nat) (v : Q) (pp' : pyvar) :
  0 < bin_size ->
  Forall (fun p => 0 <= snd p) depth ->
  var_nonneg pp ->
  bin_body inc depth bin_size start pp b = Ok (v, pp') ->
  0 <= v /\ var_nonneg pp'.
Proof.
  intros Hb Hd Hpp. unfold bin_body.
  destruct (bin_point_ids inc _ _ depth) as [| i ids].
  - destruct pp as [| | p]; cbn [volume_or_zero bind]; [discriminate | |];
      intros H; injection H as <- <-; (split; [| exact Hpp]);
      apply close_bin_nonneg; try assumption; constructor;
      cbn [prev_volume bin_volume prev_point]; try exact I; try lra; exact Hpp.
  - set (first := list_min 0 (i :: ids)). set (last := list_max 0 (i :: ids)).
    assert (Hq : forall q, (if (1 <=? first)%nat
                            then match nth_error depth (first - 1) with
                                 | Some p => Ok (Bound p)
                                 | None => Raise IndexError
                                 end
                            else Ok PyNone) = Ok q -> var_nonneg q).
    { intros q. destruct (1 <=? first)%nat.
      - destruct (nth_error depth (first - 1)) as [p |] eqn:E; [| discriminate].
        intros H. injection H as <-. apply nth_error_In in E.
        exact (proj1 (Forall_forall _ _) Hd p E).
      - intros H. injection H as <-. exact I. }
    destruct (if (1 <=? first)%nat then _ else _) as [q | e]; [| discriminate].
    specialize (Hq q eq_refl). cbn [bind].
    destruct q as [| | p]; cbn [volume_or_zero bind]; [discriminate | |];
      intros H; injection H as <- <-;
      match goal with
      | |- context [fold_left (visit bin_size) ?pts ?c] =>
          assert (Hc : cursor_nonneg (fold_left (visit bin_size) pts c))
      end;
      try (apply fold_visit_nonneg;
           [ exact Hb
           | constructor; cbn [prev_volume bin_volume prev_point];
             try exact I; try lra; exact Hq
           | apply Forall_forall; intros x Hx; apply points_range_sub in Hx;
             exact (proj1 (Forall_forall _ _) Hd x Hx) ]);
      (split; [now apply close_bin_nonneg | apply Hc]).
Qed.

Lemma bins_loop_nonneg (inc : bool) (depth : list point) (bin_size start : Q)
    (bins : list nat) (pp : pyvar) (vs : list Q) :
  0 < bin_size ->
  Forall (fun p => 0 <= snd p) depth ->
  var_nonneg pp ->
  bins_loop (bin_body inc depth bin_size start) bins pp = Ok vs ->
  Forall (fun v => 0 <= v) vs.
Proof.
  intros Hb Hd. revert pp vs. induction bins as [| b bins IH]; intros pp vs Hpp; simpl.
  - intros H. injection H as <-. constructor.
  - destruct (bin_body inc depth bin_size start pp b) as [[v pp'] | e] eqn:E;
      [| discriminate].
    cbn [bind fst snd].
    destruct (bin_body_nonneg _ _ _ _ _ _ _ _ Hb Hd Hpp E) as [Hv Hpp'].
    destruct (bins_loop _ bins pp') as [rest | e] eqn:Er; [| discriminate].
    cbn [bind]. intros H. injection H as <-.
    constructor; [exact Hv | now apply (IH pp')].
Qed.

(** Whatever the order of the points: when no volume of the curve is
    negative and the bin size is positive, no bin returned by
    [discretize] is negative. *)
Theorem discretize_bins_nonnegative (side : string) (depth : list point)
    (bin_size : Q) (start : option Q) (bins : list Q)
    (Hsize : 0 < bin_size)
    (Hdepth : Forall (fun p => 0 <= snd p) depth)
    (H : discretize side depth bin_size start = Ok bins) :
  Forall (fun v => 0 <= v) bins.
Proof.
  unfold discretize in H.
  destruct (start_or_first start depth) as [s | e]; [| discriminate].
  destruct (last_price depth) as [last | e]; [| discriminate].
  cbn [bind] in H.
  destruct (bin_count_of last s bin_size) as [n | e]; [| discriminate].
  cbn [bind] in H.
  destruct (price_increase_of side) as [inc |]; [| discriminate].
  apply (bins_loop_nonneg inc depth bin_size s _ Unbound bins Hsize Hdepth I H).
Qed.

Lemma discretize_bins_nonnegative_witness :
  exists bins,
    discretize "ask" [(100, 5); (101, 0)] 1 None = Ok bins
    /\ Forall (fun v => 0 <= v) bins.
Proof.
  eexists. split; [reflexivity |].
  apply (discretize_bins_nonnegative "ask" [(100, 5); (101, 0)] 1 None).
  - reflexivity.
  - repeat constructor; simpl; lra.
  - reflexivity.
Defined.

End DepthSign.

(** ** Depth features *)

Module FeatureFacts.
Import Depth.
Import DepthFacts.
Import Features.

(** *** Dictionaries *)

Lemma dict_get_set (d : dict) (k k' : string) (v : value) :
  dict_get (dict_set d k v) k'
  = if String.eqb k k' then Some v else dict_get d k'.
Proof.
  induction d as [| [k0 v0] d IH]; cbn [dict_set dict_get].
  - reflexivity.
  - destruct (String.eqb k0 k) eqn:E0; cbn [dict_get].
    + apply String.eqb_eq in E0. subst k0.
      now destruct (String.eqb k k').
    + destruct (String.eqb k0 k') eqn:E1; [| exact IH].
      apply String.eqb_eq in E1. subst k0. now rewrite String.eqb_sym, E0.
Qed.

Lemma dict_get_update_other (d other : dict) (k : string) :
  Forall (fun kv => String.eqb (fst kv) k = false) other ->
  dict_get (dict_update d other) k = dict_get d k.
Proof.
  unfold dict_update. intros H. revert d.
  induction H as [| [k0 v0] other Hk _ IH]; intros d; cbn [fold_left]; [reflexivity |].
  rewrite IH, dict_get_set. cbn [fst snd] in *. now rewrite Hk.
Qed.

Lemma dict_set_keys (d : dict) (k : string) (v : value) (P : string -> Prop) :
  Forall (fun kv => P (fst kv)) d -> P k ->
  Forall (fun kv => P (fst kv)) (dict_set d k v).
Proof.
  intros H Hk. induction H as [| [k0 v0] d H0 Hd IH]; cbn [dict_set].
  - repeat constructor. exact Hk.
  - cbn [fst] in *. destruct (String.eqb k0 k); constructor; cbn [fst]; assumption.
Qed.

(** *** Names of the density features *)

Lemma to_int_not_nil (z : Z) :
  Z.to_int z <> Decimal.Pos Decimal.Nil /\ Z.to_int z <> Decimal.Neg Decimal.Nil.
Proof.
  pose proof (DecimalZ.to_of (Z.to_int z)) as H.
  rewrite DecimalZ.of_to in H.
  split; intros E; rewrite E in H; discriminate.
Qed.

Lemma str_of_int_inj (a b : Z) : str_of_int a = str_of_int b -> a = b.
Proof.
  unfold str_of_int. intros H.
  destruct (to_int_not_nil a) as [A1 A2]. destruct (to_int_not_nil b) as [B1 B2].
  pose proof (DecimalString.NilZero.isi (Z.to_int a) A1 A2) as Ia.
  pose proof (DecimalString.NilZero.isi (Z.to_int b) B1 B2) as Ib.
  rewrite H in Ia. rewrite Ia in Ib. injection Ib as Ib.
  now apply DecimalZ.to_int_inj.
Qed.

Definition bids_key (length : Z) : string := ("bids_" ++ str_of_int length)%string.
Definition asks_key (length : Z) : string := ("asks_" ++ str_of_int length)%string.

Lemma bids_key_eqb (a b : Z) : String.eqb (bids_key a) (bids_key b) = (a =? b)%Z.
Proof.
  destruct (String.eqb _ _) eqn:E.
  - apply String.eqb_eq in E. unfold bids_key in E. cbn [append] in E.
    injection E as E. apply str_of_int_inj in E. symmetry. now apply Z.eqb_eq.
  - apply String.eqb_neq in E. symmetry. apply Z.eqb_neq. congruence.
Qed.

Lemma asks_key_eqb (a b : Z) : String.eqb (asks_key a) (asks_key b) = (a =? b)%Z.
Proof.
  destruct (String.eqb _ _) eqn:E.
  - apply String.eqb_eq in E. unfold asks_key in E. cbn [append] in E.
    injection E as E. apply str_of_int_inj in E. symmetry. now apply Z.eqb_eq.
  - apply String.eqb_neq in E. symmetry. apply Z.eqb_neq. congruence.
Qed.

Lemma bids_asks_differ (a b : Z) :
  String.eqb (asks_key a) (bids_key b) = false
  /\ String.eqb (bids_key a) (asks_key b) = false.
Proof. split; reflexivity. Qed.

(** The dictionary built by the loop of [mean_volumes]. *)
Definition densities_of (bid_volumes ask_volumes : list Q) (windows : list Z) (ret : dict)
  : dict :=
  fold_left
    (fun ret length =>
       let ret := dict_set ret (bids_key length) (VFloat (density bid_volumes length)) in
       dict_set ret (asks_key length) (VFloat (density ask_volumes length)))
    windows ret.

Lemma densities_of_get (bv av : list Q) (windows : list Z) (ret : dict) (length : Z) :
  (In length windows ->
   dict_get (densities_of bv av windows ret) (bids_key length)
   = Some (VFloat (density bv length))
   /\ dict_get (densities_of bv av windows ret) (asks_key length)
      = Some (VFloat (density av length)))
  /\ (~ In length windows ->
      dict_get (densities_of bv av windows ret) (bids_key length)
      = dict_get ret (bids_key length)
      /\ dict_get (densities_of bv av windows ret) (asks_key length)
         = dict_get ret (asks_key length)).
Proof.
  revert ret. induction windows as [| w windows IH]; intros ret.
  - split; [contradiction | intros _; split; reflexivity].
  - unfold densities_of. cbn [fold_left].
    fold (densities_of bv av windows
            (dict_set (dict_set ret (bids_key w) (VFloat (density bv w)))
                      (asks_key w) (VFloat (density av w)))).
    destruct (IH (dict_set (dict_set ret (bids_key w) (VFloat (density bv w)))
                           (asks_key w) (VFloat (density av w)))) as [IH1 IH2].
    destruct (in_dec Z.eq_dec length windows) as [Hin | Hout].
    + split; [intros _; now apply IH1 |].
      intros H. elim H. now right.
    + destruct (IH2 Hout) as [E1 E2]. rewrite E1, E2, !dict_get_set.
      rewrite (proj1 (bids_asks_differ w length)), (proj2 (bids_asks_differ w length)).
      rewrite bids_key_eqb, asks_key_eqb.
      destruct (w =? length)%Z eqn:Ew.
      * apply Z.eqb_eq in Ew. subst w. split; [intros _; now split |].
        intros H. elim H. now left.
      * apply Z.eqb_neq in Ew. split; [| intros _; now split].
        intros [H | H]; [congruence | contradiction].
Qed.

Lemma slice_to_firstn {A : Type} (l : list A) (length : Z) :
  (0 <= length)%Z ->
  slice_to l (Z.min length (Z.of_nat (List.length l))) = firstn (Z.to_nat length) l.
Proof.
  intros H. unfold slice_to.
  destruct (Z.min length (Z.of_nat (List.length l)) <? 0)%Z eqn:E;
    [apply Z.ltb_lt in E; lia |].
  destruct (Z.min_spec length (Z.of_nat (List.length l))) as [[Hlt ->] | [Hge ->]].
  - reflexivity.
  - rewrite Nat2Z.id, firstn_all. symmetry. apply firstn_all2. lia.
Qed.

Lemma mean_volumes_densities (depth : entry) (windows : list Z) (bin_size : Q)
    (bv av : list Q) :
  discretize "bid" (bids depth) bin_size None = Ok bv ->
  discretize "ask" (asks depth) bin_size None = Ok av ->
  mean_volumes depth windows bin_size = Ok (densities_of bv av windows []).
Proof.
  intros Hb Ha. unfold mean_volumes. rewrite Hb, Ha. reflexivity.
Qed.

(** For every window length that was asked for and is not negative, the
    dictionary returned by [mean_volumes] holds under ["bids_<length>"]
    and ["asks_<length>"] the mean of the first [length] bins of the
    discretized side (of all bins when there are fewer), whatever other
    lengths are asked for or repeated. *)
Theorem mean_volumes_lookup (depth : entry) (windows : list Z) (bin_size : Q)
    (ret : dict) (length : Z)
    (H : mean_volumes depth windows bin_size = Ok ret)
    (Hin : In length windows)
    (Hpos : (0 <= length)%Z) :
  exists bid_volumes ask_volumes,
    discretize "bid" (bids depth) bin_size None = Ok bid_volumes
    /\ discretize "ask" (asks depth) bin_size None = Ok ask_volumes
    /\ dict_get ret ("bids_" ++ str_of_int length)
       = Some (VFloat (nanmean (firstn (Z.to_nat length) bid_volumes)))
    /\ dict_get ret ("asks_" ++ str_of_int length)
       = Some (VFloat (nanmean (firstn (Z.to_nat length) ask_volumes))).
Proof.
  destruct (discretize "bid" (bids depth) bin_size None) as [bv | e] eqn:Eb;
    [| unfold mean_volumes in H; rewrite Eb in H; discriminate].
  destruct (discretize "ask" (asks depth) bin_size None) as [av | e] eqn:Ea;
    [| unfold mean_volumes in H; rewrite Eb, Ea in H; discriminate].
  rewrite (mean_volumes_densities depth windows bin_size bv av Eb Ea) in H.
  injection H as <-.
  exists bv, av. split; [reflexivity |]. split; [reflexivity |].
  destruct (proj1 (densities_of_get bv av windows [] length) Hin) as [E1 E2].
  fold (bids_key length). fold (asks_key length). rewrite E1, E2.
  unfold density. now rewrite !slice_to_firstn by exact Hpos.
Qed.

Lemma mean_volumes_lookup_witness :
  let depth := mk_entry 1000 [(100, 5); (99, 7)] [(101, 3); (103, 4)] in
  exists ret,
    mean_volumes depth [1%Z; 2%Z] 1 = Ok ret
    /\ exists bid_volumes ask_volumes,
         discretize "bid" (bids depth) 1 None = Ok bid_volumes
         /\ discretize "ask" (asks depth) 1 None = Ok ask_volumes
         /\ dict_get ret ("bids_" ++ str_of_int 2)
            = Some (VFloat (nanmean (firstn (Z.to_nat 2) bid_volumes)))
         /\ dict_get ret ("asks_" ++ str_of_int 2)
            = Some (VFloat (nanmean (firstn (Z.to_nat 2) ask_volumes))).
Proof.
  eexists. split; [reflexivity |].
  apply (mean_volumes_lookup (mk_entry 1000 [(100, 5); (99, 7)] [(101, 3); (103, 4)])
           [1%Z; 2%Z] 1).
  - reflexivity.
  - right. now left.
  - lia.
Defined.

(** *** The feature record of one depth entry *)




Definition density_key (k : string) : Prop :=
  exists length, k = bids_key length \/ k = asks_key length.

Lemma densities_of_keys (bv av : list Q) (windows : list Z) (ret : dict) :
  Forall (fun kv => density_key (fst kv)) ret ->
  Forall (fun kv => density_key (fst kv)) (densities_of bv av windows ret).
Proof.
  revert ret. induction windows as [| w windows IH]; intros ret H; [exact H |].
  unfold densities_of. cbn [fold_left]. apply IH.
  apply dict_set_keys; [apply dict_set_keys; [exact H |] |]; exists w; auto.
Qed.

Lemma density_key_fresh (k : string) :
  density_key k ->
  String.eqb k "timestamp" = false /\ String.eqb k "gap" = false
  /\ String.eqb k "price" = false.
Proof. intros [w [-> | ->]]; repeat split. Qed.

(** In the record of an entry the gap is never negative: it is the
    distance from the best bid to the best ask, or zero when the book is
    crossed; the price is the best bid plus half the gap, so the mid price
    of an uncrossed book and the best bid itself of a crossed one.  The
    density features never overwrite these entries. *)
Theorem depth_to_features_gap_and_price (e : entry) (windows : list Z) (bin_size : Q)
    (record : dict) (best_bid best_ask : point) (other_bids other_asks : list point)
    (Hbids : bids e = best_bid :: other_bids)
    (Hasks : asks e = best_ask :: other_asks)
    (H : depth_to_features e windows bin_size = Ok record) :
  exists gap price,
    dict_get record "timestamp" = Some (VInt (timestamp e))
    /\ dict_get record "gap" = Some (VFloat (Num gap))
    /\ dict_get record "price" = Some (VFloat (Num price))
    /\ 0 <= gap
    /\ (fst best_bid <= fst best_ask ->
        gap == fst best_ask - fst best_bid
        /\ price == (fst best_bid + fst best_ask) / 2
        /\ fst best_bid <= price <= fst best_ask)
    /\ (fst best_ask < fst best_bid -> gap == 0 /\ price == fst best_bid).
Proof.
  unfold depth_to_features in H. rewrite Hbids, Hasks in H.
  cbn [best_price bind] in H.
  destruct (mean_volumes e windows bin_size) as [densities | err] eqn:Em;
    [| discriminate].
  cbn [bind] in H. injection H as <-.
  assert (Hkeys : Forall (fun kv => density_key (fst kv)) densities).
  { unfold mean_volumes in Em.
    destruct (discretize "bid" (bids e) bin_size None) as [bv | err]; [| discriminate].
    destruct (discretize "ask" (asks e) bin_size None) as [av | err]; [| discriminate].
    cbn [bind] in Em. injection Em as <-.
    apply (densities_of_keys bv av windows []). constructor. }
  set (gap := if Qlt_bool (fst best_ask - fst best_bid) 0 then 0
              else fst best_ask - fst best_bid).
  exists gap, (fst best_bid + gap / 2).
  assert (Hfresh : forall k,
             (String.eqb k "timestamp" = true \/ String.eqb k "gap" = true
              \/ String.eqb k "price" = true) ->
             Forall (fun kv => String.eqb (fst kv) k = false) densities).
  { intros k Hk. eapply Forall_impl; [| exact Hkeys].
    intros [k0 v0] Hd. cbn [fst] in *.
    destruct (density_key_fresh k0 Hd) as [F1 [F2 F3]].
    destruct (String.eqb k0 k) eqn:E; [| reflexivity].
    apply String.eqb_eq in E. subst k0.
    destruct Hk as [Hk | [Hk | Hk]]; congruence. }
  rewrite !dict_get_update_other by (apply Hfresh; auto).
  split; [reflexivity |]. split; [reflexivity |]. split; [reflexivity |].
  unfold gap.
  destruct (Qlt_bool (fst best_ask - fst best_bid) 0) eqn:E.
  - apply Qlt_bool_iff in E. split; [lra |]. split; [intros; lra |].
    intros _. split; [reflexivity |]. field.
  - apply Qlt_bool_false in E. split; [lra |]. split; [| intros; lra].
    intros _. split; [reflexivity |].
    assert (Ep : fst best_bid + (fst best_ask - fst best_bid) / 2
                 == (fst best_bid + fst best_ask) / 2) by field.
    split; [exact Ep |]. rewrite Ep.
    split.
    + apply Qle_shift_div_l; lra.
    + apply Qle_shift_div_r; lra.
Qed.

Lemma depth_to_features_gap_and_price_witness :
  let e := mk_entry 1000 [(100, 5); (99, 7)] [(101, 3); (103, 4)] in
  exists record,
    depth_to_features e [1%Z; 2%Z] 1 = Ok record
    /\ exists gap price,
         dict_get record "timestamp" = Some (VInt (timestamp e))
         /\ dict_get record "gap" = Some (VFloat (Num gap))
         /\ dict_get record "price" = Some (VFloat (Num price))
         /\ 0 <= gap
         /\ (fst (100, 5) <= fst (101, 3) ->
             gap == fst (101, 3) - fst (100, 5)
             /\ price == (fst (100, 5) + fst (101, 3)) / 2
             /\ fst (100, 5) <= price <= fst (101, 3))
         /\ (fst (101, 3) < fst (100, 5) -> gap == 0 /\ price == fst (100, 5)).
Proof.
  eexists. split; [reflexivity |].
  apply (depth_to_features_gap_and_price
           (mk_entry 1000 [(100, 5); (99, 7)] [(101, 3); (103, 4)]) [1%Z; 2%Z] 1
           _ (100, 5) (101, 3) [(99, 7)] [(103, 4)]); reflexivity.
Defined.

End FeatureFacts.

(** ** Threshold features *)

Module ThresholdFacts.
Import Aggregate.
Import Threshold.

Lemma Qle_bool_compat (a a' b b' : Q) :
  a == a' -> b == b' -> Qle_bool a b = Qle_bool a' b'.
Proof.
  intros Ha Hb.
  destruct (Qle_bool a b) eqn:E1, (Qle_bool a' b') eqn:E2; try reflexivity.
  - apply Qle_bool_iff in E1. apply Qle_bool_false in E2. lra.
  - apply Qle_bool_iff in E2. apply Qle_bool_false in E1. lra.
Qed.

Lemma Qle_bool_opp (a b : Q) : Qle_bool (- a) (- b) = Qle_bool b a.
Proof.
  destruct (Qle_bool (- a) (- b)) eqn:E1, (Qle_bool b a) eqn:E2; try reflexivity.
  - apply Qle_bool_iff in E1. apply Qle_bool_false in E2. lra.
  - apply Qle_bool_iff in E2. apply Qle_bool_false in E1. lra.
Qed.

Lemma ge_neg (x : cell) (t : Q) : ge (neg x) (Num (- t)) = le x (Num t).
Proof. destruct x; simpl; try reflexivity. apply Qle_bool_opp. Qed.

Lemma le_neg (x : cell) (t : Q) : le (neg x) (Num (- t)) = ge x (Num t).
Proof. destruct x; simpl; try reflexivity. apply Qle_bool_opp. Qed.

(** The rule is symmetric in the sign: for a threshold other than zero,
    the flags of the negated values under the negated threshold are the
    flags of the values under the threshold. *)
Theorem threshold_flags_mirror (values : list cell) (threshold : Q)
    (H : ~ threshold == 0) :
  threshold_flags (map neg values) (- threshold) = threshold_flags values threshold.
Proof.
  unfold threshold_flags.
  rewrite (Qle_bool_compat (3 # 4) (3 # 4) (Qabs (- threshold)) (Qabs threshold))
    by (try reflexivity; apply Qabs_opp).
  destruct (Qlt_bool 0 threshold) eqn:E1, (Qlt_bool 0 (- threshold)) eqn:E2.
  - apply Qlt_bool_iff in E1. apply Qlt_bool_iff in E2. lra.
  - destruct (Qle_bool (3 # 4) (Qabs threshold)); rewrite map_map;
      apply map_ext; intros x; [apply le_neg | apply ge_neg].
  - destruct (Qle_bool (3 # 4) (Qabs threshold)); rewrite map_map;
      apply map_ext; intros x; [apply ge_neg | apply le_neg].
  - apply Qlt_bool_false in E1. apply Qlt_bool_false in E2. elim H. lra.
Qed.

Lemma threshold_flags_mirror_witness :
  threshold_flags (map neg [Num 1; Num (1 # 2); NaN]) (- (8 # 10))
  = threshold_flags [Num 1; Num (1 # 2); NaN] (8 # 10).
Proof.
  apply threshold_flags_mirror. intros H. vm_compute in H. discriminate.
Defined.

Lemma get_set (df : frame) (k k' : string) (c : column) :
  get (set df k c) k' = if String.eqb k k' then Some c else get df k'.
Proof.
  induction df as [| [k0 c0] df IH]; cbn [set get].
  - reflexivity.
  - destruct (String.eqb k0 k) eqn:E0; cbn [get].
    + apply String.eqb_eq in E0. subst k0. now destruct (String.eqb k k').
    + destruct (String.eqb k0 k') eqn:E1; [| exact IH].
      apply String.eqb_eq in E1. subst k0. now rewrite String.eqb_sym, E0.
Qed.

Lemma get_set_present (df : frame) (k k' : string) (c : column) :
  get df k' <> None -> get (set df k c) k' <> None.
Proof.
  intros H. rewrite get_set. destruct (String.eqb k k'); [discriminate | exact H].
Qed.

Lemma threshold_loop_outcome (df : frame) (column_name : string) (i : nat)
    (thresholds : list Q) (out_names : list string) :
  get df column_name <> None ->
  (i <= List.length out_names)%nat ->
  snd (threshold_loop df column_name i thresholds out_names)
  = if (i + List.length thresholds <=? List.length out_names)%nat
    then Done tt else Failed (Builtin IndexError).
Proof.
  revert df i. induction thresholds as [| t tl IH]; intros df i Hc Hi;
    cbn [threshold_loop].
  - cbn [List.length snd]. rewrite Nat.add_0_r.
    now rewrite (proj2 (Nat.leb_le _ _) Hi).
  - destruct (nth_error out_names i) as [name |] eqn:En.
    + destruct (get df column_name) as [c |] eqn:Ec; [| congruence].
      assert (Hlt : (i < List.length out_names)%nat)
        by (apply nth_error_Some; congruence).
      rewrite IH by (try (apply get_set_present; congruence); lia).
      cbn [List.length]. now rewrite Nat.add_succ_r.
    + apply nth_error_None in En. cbn [snd List.length].
      destruct (i + S (List.length tl) <=? List.length out_names)%nat eqn:E;
        [apply Nat.leb_le in E; lia | reflexivity].
Qed.

Lemma threshold_loop_columns (df : frame) (column_name : string) (i : nat)
    (thresholds : list Q) (out_names : list string) (name : string) :
  get df name <> None ->
  get (fst (threshold_loop df column_name i thresholds out_names)) name <> None.
Proof.
  revert df i. induction thresholds as [| t tl IH]; intros df i H;
    cbn [threshold_loop]; [exact H |].
  destruct (nth_error out_names i) as [out |]; [| exact H].
  destruct (get df column_name) as [c |]; [| exact H].
  apply IH. now apply get_set_present.
Qed.

Lemma threshold_loop_written (df : frame) (column_name : string) (i : nat)
    (thresholds : list Q) (out_names : list string) (j : nat) (name : string) :
  get df column_name <> None ->
  (i <= j < i + List.length thresholds)%nat ->
  nth_error out_names j = Some name ->
  get (fst (threshold_loop df column_name i thresholds out_names)) name <> None.
Proof.
  revert df i. induction thresholds as [| t tl IH]; intros df i Hc Hj Hn;
    cbn [threshold_loop]; [cbn [List.length] in Hj; lia |].
  cbn [List.length] in Hj.
  destruct (nth_error out_names i) as [out |] eqn:En.
  - destruct (get df column_name) as [c |] eqn:Ec; [| congruence].
    destruct (Nat.eq_dec i j) as [-> | Hij].
    + apply threshold_loop_columns. rewrite get_set.
      assert (out = name) by congruence. subst out.
      now rewrite String.eqb_refl.
    + apply IH; [apply get_set_present; congruence | lia | exact Hn].
  - apply nth_error_None in En.
    assert (j < List.length out_names)%nat by (apply nth_error_Some; congruence).
    lia.
Qed.

(** When the column exists, [add_threshold_feature] returns the output
    names exactly when there are at least as many names as thresholds;
    with fewer names it fails with [IndexError], and by then the columns
    of all the names there are have already been written to the frame. *)
Theorem add_threshold_feature_names (df : frame) (column_name : string)
    (thresholds : list Q) (out_names : list string)
    (H : get df column_name <> None) :
  snd (add_threshold_feature df column_name thresholds out_names)
  = (if (List.length thresholds <=? List.length out_names)%nat
     then Done out_names else Failed (Builtin IndexError))
  /\ forall j name,
       (j < List.length thresholds)%nat ->
       nth_error out_names j = Some name ->
       get (fst (add_threshold_feature df column_name thresholds out_names)) name
       <> None.
Proof.
  unfold add_threshold_feature.
  pose proof (threshold_loop_outcome df column_name 0 thresholds out_names H
                ltac:(lia)) as Ho.
  cbn [Nat.add] in Ho.
  pose proof (fun j name => threshold_loop_written df column_name 0 thresholds
                              out_names j name H) as Hw.
  destruct (threshold_loop df column_name 0 thresholds out_names) as [df' [u | e]];
    cbn [fst snd] in *.
  - split.
    + destruct (List.length thresholds <=? List.length out_names)%nat;
        [reflexivity | discriminate Ho].
    + intros j name Hj Hn. apply (Hw j name); [lia | exact Hn].
  - split.
    + destruct (List.length thresholds <=? List.length out_names)%nat;
        [discriminate Ho | congruence].
    + intros j name Hj Hn. apply (Hw j name); [lia | exact Hn].
Qed.

Lemma add_threshold_feature_names_witness :
  let df := [("high_max"%string, FloatCol [Num 1; Num (1 # 2)])] in
  snd (add_threshold_feature df "high_max" [8 # 10; 2 # 10] ["high_80"%string])
  = (if (2 <=? 1)%nat then Done ["high_80"%string] else Failed (Builtin IndexError))
  /\ forall j name,
       (j < 2)%nat ->
       nth_error ["high_80"%string] j = Some name ->
       get (fst (add_threshold_feature df "high_max" [8 # 10; 2 # 10]
                                       ["high_80"%string])) name
       <> None.
Proof.
  apply (add_threshold_feature_names
           [("high_max"%string, FloatCol [Num 1; Num (1 # 2)])] "high_max"
           [8 # 10; 2 # 10] ["high_80"%string]).
  discriminate.
Defined.

End ThresholdFacts.

(** ** Score aggregation: the sign of the result *)

Module AggregateRange.
Import Aggregate.
Import AggregateFacts.

(** A cell that is missing or a number between [lo] and [hi]. *)
Definition within (lo hi : Q) (c : cell) : Prop :=
  match c with
  | Num q => lo <= q <= hi
  | NaN => True
  | PInf | NInf => False
  end.

Lemma csum_from_bounds (lo hi : Q) (l : list cell) (a : Q) :
  Forall (fun c => observed c = true /\ within lo hi c) l ->
  exists s, fold_left add l (Num a) = Num s
            /\ a + Qnat (List.length l) * lo <= s <= a + Qnat (List.length l) * hi.
Proof.
  intros H. revert a. induction H as [| c l [Hobs Hc] _ IH]; intros a.
  - exists a. split; [reflexivity |]. unfold Qnat. cbn [List.length Z.of_nat].
    change (inject_Z 0) with 0. lra.
  - destruct c as [q | | |]; try discriminate. simpl in Hc.
    cbn [fold_left add]. destruct (IH (a + q)) as [s [Es Hs]].
    exists s. split; [exact Es |].
    change (List.length (Num q :: l)) with (S (List.length l)).
    rewrite DepthFacts.Qnat_S. lra.
Qed.

Lemma mean_bounds (lo hi : Q) (l : list cell) :
  l <> [] ->
  Forall (fun c => observed c = true /\ within lo hi c) l ->
  within lo hi (div (csum l) (Num (Qnat (List.length l)))).
Proof.
  intros Hne H. destruct (csum_from_bounds lo hi l 0 H) as [s [Es Hs]].
  unfold csum. rewrite Es.
  destruct l as [| c l]; [congruence |].
  change (List.length (c :: l)) with (S (List.length l)) in *.
  unfold div. rewrite Qnat_S_nonzero. cbn [within].
  assert (Hn : 0 < Qnat (S (List.length l))) by (unfold Qnat, Qlt; simpl; lia).
  split.
  - apply Qle_shift_div_l; [exact Hn | lra].
  - apply Qle_shift_div_r; [exact Hn | lra].
Qed.

Lemma filter_keeps_within (lo hi : Q) (f : cell -> bool) (l : list cell) :
  (forall c, f c = true -> observed c = true) ->
  Forall (within lo hi) l ->
  Forall (fun c => observed c = true /\ within lo hi c) (filter f l).
Proof.
  intros Hf H. induction H as [| c l Hc _ IH]; simpl; [constructor |].
  destruct (f c) eqn:E; [| exact IH].
  constructor; [| exact IH]. split; [now apply Hf | exact Hc].
Qed.

Lemma row_mean_within (lo hi : Q) (r : list cell) :
  Forall (within lo hi) r -> within lo hi (row_mean r).
Proof.
  intros H. unfold row_mean.
  assert (Hfin : Forall finite_or_missing r).
  { eapply Forall_impl; [| exact H]. intros c Hc. now destruct c. }
  rewrite (present_is_observed r Hfin).
  destruct (filter observed r) as [| c tl] eqn:E; [exact I |].
  rewrite <- E. apply mean_bounds; [congruence |].
  apply filter_keeps_within; [auto | exact H].
Qed.

Lemma rolling_mean_at_within (lo hi : Q) (w mp : nat) (l : list cell) (i : nat) :
  Forall (within lo hi) l -> within lo hi (rolling_mean_at w mp l i).
Proof.
  intros H. unfold rolling_mean_at.
  destruct ((mp <=? _)%nat && (0 <? _)%nat) eqn:E; [| exact I].
  apply andb_true_iff in E. destruct E as [_ E]. apply Nat.ltb_lt in E.
  apply mean_bounds.
  - intros H0. rewrite H0 in E. simpl in E. lia.
  - apply filter_keeps_within; [auto |].
    now apply Forall_window_at.
Qed.

Lemma flags_within (l : list bool) : Forall (within 0 1) (map of_bool l).
Proof.
  induction l as [| b l IH]; simpl; constructor; [| exact IH].
  destruct b; simpl; lra.
Qed.

(** A cell that is missing or a number that is not negative. *)
Definition nonneg_or_missing (c : cell) : Prop :=
  match c with
  | Num q => 0 <= q
  | NaN => True
  | PInf | NInf => False
  end.

Lemma within_nonneg (hi : Q) (c : cell) : within 0 hi c -> nonneg_or_missing c.
Proof. destruct c as [q | | |]; simpl; tauto. Qed.

Lemma within_weaken (hi hi' : Q) (c : cell) :
  hi <= hi' -> within 0 hi c -> within 0 hi' c.
Proof. intros Hle. destruct c as [q | | |]; simpl; try tauto. lra. Qed.

(** A finite list of such cells has an upper bound. *)
Lemma bounded_above (l : list cell) :
  Forall nonneg_or_missing l -> exists hi, 0 <= hi /\ Forall (within 0 hi) l.
Proof.
  induction 1 as [| c l Hc _ [hi [Hhi IH]]].
  - exists 0. split; [lra | constructor].
  - destruct c as [q | | |]; simpl in Hc; try contradiction.
    + exists (hi + q). split; [lra |]. constructor; [simpl; lra |].
      eapply Forall_impl; [| exact IH]. intros c. apply within_weaken. lra.
    + exists hi. split; [exact Hhi |]. constructor; [exact I | exact IH].
Qed.

Lemma row_mean_nonneg (r : list cell) :
  Forall nonneg_or_missing r -> nonneg_or_missing (row_mean r).
Proof.
  intros H. destruct (bounded_above r H) as [hi [_ Hr]].
  apply (within_nonneg hi). now apply row_mean_within.
Qed.

Lemma rolling_mean_at_nonneg (w mp : nat) (l : list cell) (i : nat) :
  Forall nonneg_or_missing l -> nonneg_or_missing (rolling_mean_at w mp l i).
Proof.
  intros H. destruct (bounded_above l H) as [hi [_ Hl]].
  apply (within_nonneg hi). now apply rolling_mean_at_within.
Qed.

Lemma flags_nonneg (l : list bool) : Forall nonneg_or_missing (map of_bool l).
Proof.
  eapply Forall_impl; [| apply flags_within]. intros c. apply within_nonneg.
Qed.

Section WithEwm.

Variable ewm_mean : Q -> Q -> list cell -> result (list cell).

(** Without a float window, scores that are not negative give an
    aggregated score that is not negative: if every input score is missing
    or at least zero, so is every value of the returned column, smoothed
    by a moving average or not; and when the scores are binarized by a
    non-zero threshold the values lie between 0 and 1. *)
Theorem aggregate_scores_nonnegative (df : list (list cell)) (m : model)
    (out : column)
    (Hdf : Forall (Forall nonneg_or_missing) df)
    (Hwin : forall span, window m <> FloatWindow span)
    (H : aggregate_scores ewm_mean df (Some m) = Ok out) :
  Forall nonneg_or_missing (as_float out)
  /\ (threshold_given (point_threshold m) = true ->
      Forall (within 0 1) (as_float out)).
Proof.
  unfold aggregate_scores in H.
  assert (Hpre : Forall nonneg_or_missing
                   (as_float (score_before_smoothing df (point_threshold m)))
                 /\ (threshold_given (point_threshold m) = true ->
                     Forall (within 0 1)
                       (as_float (score_before_smoothing df (point_threshold m))))).
  { clear H. unfold score_before_smoothing.
    destruct (threshold_given (point_threshold m)) eqn:Et.
    - destruct (point_threshold m) as [t |]; [| discriminate Et].
      cbn [as_float]. split; [apply flags_nonneg | intros _; apply flags_within].
    - cbn [as_float]. split; [| intros Hf; discriminate Hf].
      induction Hdf as [| r df Hr _ IH]; simpl; constructor;
        auto using row_mean_nonneg. }
  destruct Hpre as [Hsign Hunit].
  destruct (window m) as [| w | span] eqn:Ew.
  - injection H as <-. split; [exact Hsign | exact Hunit].
  - unfold rolling_mean in H.
    destruct (w <? 0)%Z; [discriminate H |].
    destruct (w <? w / 2)%Z; [discriminate H |].
    cbn [bind] in H. injection H as <-. cbn [as_float].
    split.
    + apply Forall_forall. intros c Hc. apply in_map_iff in Hc.
      destruct Hc as [i [<- _]]. now apply rolling_mean_at_nonneg.
    + intros Ht. specialize (Hunit Ht).
      apply Forall_forall. intros c Hc. apply in_map_iff in Hc.
      destruct Hc as [i [<- _]]. now apply rolling_mean_at_within.
  - elim (Hwin span). reflexivity.
Qed.

End WithEwm.

Lemma aggregate_scores_nonnegative_witness :
  let df := [[Num (1 # 2); NaN]; [Num (1 # 4); Num (3 # 4)]; [NaN; NaN]] in
  let m := mk_model (Some (1 # 2)) (IntWindow 2) in
  exists out,
    aggregate_scores (fun _ _ l => Ok l) df (Some m) = Ok out
    /\ Forall nonneg_or_missing (as_float out)
    /\ (threshold_given (point_threshold m) = true ->
        Forall (within 0 1) (as_float out)).
Proof.
  eexists. split; [reflexivity |].
  apply (aggregate_scores_nonnegative (fun _ _ l => Ok l)
           [[Num (1 # 2); NaN]; [Num (1 # 4); Num (3 # 4)]; [NaN; NaN]]
           (mk_model (Some (1 # 2)) (IntWindow 2))).
  - repeat constructor; simpl; lra.
  - discriminate.
  - reflexivity.
Defined.

End AggregateRange.

(** ** Time intervals *)

Module ClockFacts.
Import Clock.
Local Open Scope Z_scope.

Lemma interval_of_seconds (len s ms : Z) :
  0 < len -> s = ms / 1000 ->
  let start := s - s mod len in
  start * 1000 <= ms < (start + len) * 1000
  /\ (start + len) * 1000 - start * 1000 = len * 1000
  /\ (start * 1000) mod (len * 1000) = 0.
Proof.
  intros Hlen Hs start.
  pose proof (Z.mod_pos_bound s len Hlen) as Hm.
  pose proof (Z.mod_pos_bound ms 1000 ltac:(lia)) as Hr.
  pose proof (Z.div_mod ms 1000 ltac:(lia)) as Hd.
  rewrite <- Hs in Hd.
  split; [unfold start; lia |]. split; [lia |].
  assert (E : start = len * (s / len)).
  { unfold start. pose proof (Z.div_mod s len ltac:(lia)). lia. }
  rewrite E.
  replace (len * (s / len) * 1000) with ((s / len) * (len * 1000)) by lia.
  apply Z.mod_mul. lia.
Qed.

Lemma plus_seconds_in_range (t d : Z) :
  datetime_min <= t + d <= datetime_max -> plus_seconds t d = Done (t + d).
Proof.
  intros [H1 H2]. unfold plus_seconds.
  apply Z.leb_le in H1. apply Z.leb_le in H2. now rewrite H1, H2.
Qed.

Lemma to_datetime_in_range (ms : Z) :
  Z.abs ms <= max_millis ->
  to_datetime ms = Done (ms / 1000)
  /\ -9223372037 <= ms / 1000 <= 9223372036.
Proof.
  intros H. unfold to_datetime. unfold max_millis in *.
  rewrite (proj2 (Z.leb_le _ _) H). split; [reflexivity |].
  pose proof (Z.div_mod ms 1000 ltac:(lia)).
  pose proof (Z.mod_pos_bound ms 1000 ltac:(lia)). lia.
Qed.

(** For the four frequencies it implements and a timestamp other than
    zero that pandas can hold, [get_interval] returns the interval of that
    length that contains the timestamp: it starts at a multiple of the
    length, at or before the timestamp, and ends one length later, after
    the timestamp. *)
Theorem get_interval_contains_timestamp (utcnow : Z) (freq : string) (ms len : Z)
    (Hfreq : interval_millis freq = Some len)
    (Hms : ms <> 0)
    (Hrange : Z.abs ms <= max_millis) :
  exists start end_,
    get_interval utcnow freq (Millis ms) = Done (start, end_)
    /\ start <= ms < end_
    /\ end_ - start = len
    /\ start mod len = 0.
Proof.
  unfold interval_millis in Hfreq. unfold get_interval.
  apply Z.eqb_neq in Hms. rewrite Hms.
  destruct (to_datetime_in_range ms Hrange) as [-> Hs]. cbn [and_then].
  set (s := ms / 1000) in *.
  pose proof (Z.mod_pos_bound s 60 ltac:(lia)) as M60.
  pose proof (Z.mod_pos_bound s 3600 ltac:(lia)) as M3600.
  destruct (String.eqb freq "1s").
  { injection Hfreq as <-.
    rewrite plus_seconds_in_range by (unfold datetime_min, datetime_max; lia).
    eexists; eexists. split; [reflexivity |].
    pose proof (interval_of_seconds 1 s ms ltac:(lia) eq_refl) as H.
    cbv zeta in H. rewrite Z.mod_1_r, Z.sub_0_r in H.
    change (1 * 1000) with 1000 in H.
    destruct H as [H1 [H2 H3]]. repeat split; first [lia | exact H3]. }
  destruct (String.eqb freq "5s").
  { injection Hfreq as <-.
    assert (E : s - s mod 60 + 5 * ((s - (s - s mod 60)) / 5) = s - s mod 5).
    { replace (s - (s - s mod 60)) with (s mod 60) by lia.
      generalize (s mod 60) (Z.div_mod s 60 ltac:(lia)) M60.
      intros r Hr Br.
      pose proof (Z.div_mod r 5 ltac:(lia)) as D1.
      pose proof (Z.mod_pos_bound r 5 ltac:(lia)) as B1.
      pose proof (Z.div_mod s 5 ltac:(lia)) as D2.
      pose proof (Z.mod_pos_bound s 5 ltac:(lia)) as B2.
      lia. }
    pose proof (Z.mod_pos_bound s 5 ltac:(lia)) as M5.
    rewrite plus_seconds_in_range
      by (rewrite E; unfold datetime_min, datetime_max; lia).
    cbn [and_then]. rewrite E.
    rewrite plus_seconds_in_range by (unfold datetime_min, datetime_max; lia).
    eexists; eexists. split; [reflexivity |].
    pose proof (interval_of_seconds 5 s ms ltac:(lia) eq_refl) as H.
    cbv zeta in H. change (5 * 1000) with 5000 in H.
    destruct H as [H1 [H2 H3]]. repeat split; first [lia | exact H3]. }
  destruct (String.eqb freq "1m").
  { injection Hfreq as <-.
    rewrite plus_seconds_in_range by (unfold datetime_min, datetime_max; lia).
    eexists; eexists. split; [reflexivity |].
    pose proof (interval_of_seconds 60 s ms ltac:(lia) eq_refl) as H.
    cbv zeta in H. change (60 * 1000) with 60000 in H.
    destruct H as [H1 [H2 H3]]. repeat split; first [lia | exact H3]. }
  destruct (String.eqb freq "1h").
  { injection Hfreq as <-.
    rewrite plus_seconds_in_range by (unfold datetime_min, datetime_max; lia).
    eexists; eexists. split; [reflexivity |].
    pose proof (interval_of_seconds 3600 s ms ltac:(lia) eq_refl) as H.
    cbv zeta in H. change (3600 * 1000) with 3600000 in H.
    destruct H as [H1 [H2 H3]]. repeat split; first [lia | exact H3]. }
  discriminate Hfreq.
Qed.

Lemma get_interval_contains_timestamp_witness :
  exists start end_,
    get_interval 0 "5s" (Millis 1600000007123) = Done (start, end_)
    /\ start <= 1600000007123 < end_
    /\ end_ - start = 5000
    /\ start mod 5000 = 0.
Proof.
  apply (get_interval_contains_timestamp 0 "5s" 1600000007123 5000).
  - reflexivity.
  - lia.
  - unfold max_millis. simpl. lia.
Defined.

(** The timestamps that reach the choice of the frequency: none, zero,
    or one that pandas can hold. *)
Definition accepted (timestamp : timestamp_arg) : Prop :=
  match timestamp with
  | NoTimestamp => True
  | Millis ms => Z.abs ms <= max_millis
  end.

Lemma unknown_frequency (utcnow : Z) (freq : string) (timestamp : timestamp_arg) :
  interval_millis freq = None -> accepted timestamp ->
  get_interval utcnow freq timestamp = Failed (Builtin UnboundLocalError).
Proof.
  intros Hfreq Hts. unfold get_interval.
  assert (E : exists t,
             match timestamp with
             | NoTimestamp => Done utcnow
             | Millis ms => if ms =? 0 then Done utcnow else to_datetime ms
             end = Done t).
  { destruct timestamp as [| ms]; [eauto |].
    destruct (ms =? 0); [eauto |].
    destruct (to_datetime_in_range ms Hts) as [-> _]. eauto. }
  destruct E as [t ->]. cbn [and_then]. unfold interval_millis in Hfreq.
  destruct (String.eqb freq "1s"); [discriminate Hfreq |].
  destruct (String.eqb freq "5s"); [discriminate Hfreq |].
  destruct (String.eqb freq "1m"); [discriminate Hfreq |].
  destruct (String.eqb freq "1h"); [discriminate Hfreq | reflexivity].
Qed.

(** The timestamp zero is taken as no timestamp at all, so the interval of
    the current time is returned for it.  A timestamp that pandas cannot
    hold fails with [OutOfBoundsDatetime] whatever the frequency.  With no
    timestamp or one that pandas can hold, any frequency other than the
    four implemented ones, ["5m"] included, ends in [UnboundLocalError]. *)
Theorem get_interval_edge_cases (utcnow : Z) (freq : string) (ms : Z) :
  get_interval utcnow freq (Millis 0) = get_interval utcnow freq NoTimestamp
  /\ (max_millis < Z.abs ms ->
      get_interval utcnow freq (Millis ms) = Failed OutOfBoundsDatetime)
  /\ (interval_millis freq = None ->
      get_interval utcnow freq NoTimestamp = Failed (Builtin UnboundLocalError)
      /\ (Z.abs ms <= max_millis ->
          get_interval utcnow freq (Millis ms) = Failed (Builtin UnboundLocalError)))
  /\ get_interval utcnow "5m" NoTimestamp = Failed (Builtin UnboundLocalError).
Proof.
  split; [reflexivity |]. split; [| split; [| reflexivity]].
  - intros H. unfold get_interval, to_datetime.
    assert (E : (ms =? 0) = false) by (apply Z.eqb_neq; unfold max_millis in H; lia).
    rewrite E. apply Z.leb_gt in H. now rewrite H.
  - intros Hfreq. split.
    + now apply unknown_frequency.
    + intros Hr. now apply unknown_frequency.
Qed.

(** *** Decimals *)

Lemma quot_bounds (m d : Z) :
  0 < d ->
  Z.abs (Z.quot m d) * d <= Z.abs m < Z.abs (Z.quot m d) * d + d
  /\ 0 <= Z.quot m d * m.
Proof.
  intros Hd. destruct (Z_le_gt_dec 0 m) as [Hm | Hm].
  - rewrite Z.quot_div_nonneg by lia.
    pose proof (Z.div_mod m d ltac:(lia)) as D.
    pose proof (Z.mod_pos_bound m d Hd) as B.
    pose proof (Z.div_pos m d Hm Hd) as P.
    rewrite (Z.abs_eq _ P), (Z.abs_eq m) by lia.
    split; [split; nia | nia].
  - assert (E : Z.quot m d = - ((- m) / d)).
    { rewrite <- (Z.quot_div_nonneg (- m) d) by lia.
      rewrite Z.quot_opp_l by lia. lia. }
    rewrite E.
    pose proof (Z.div_mod (- m) d ltac:(lia)) as D.
    pose proof (Z.mod_pos_bound (- m) d Hd) as B.
    pose proof (Z.div_pos (- m) d ltac:(lia) Hd) as P.
    rewrite Z.abs_opp, (Z.abs_eq _ P), (Z.abs_neq m) by lia.
    split; [split; nia | nia].
Qed.

Lemma to_decimal_units (value : Q) :
  to_decimal value =
  if 10000000000000000000000000000 <=?
     Z.abs (Z.quot (Qnum value * 100000000) (Z.pos (Qden value)))
  then None
  else Some (Z.quot (Qnum value * 100000000) (Z.pos (Qden value))).
Proof. reflexivity. Qed.

(** [to_decimal] cuts towards zero and loses less than [1E-8]: the result
    is no larger in magnitude than the value, differs from it by less than
    one unit of the eighth decimal place, and never has the opposite sign. *)
Theorem to_decimal_truncates (value : Q) (units : Z)
    (H : to_decimal value = Some units) :
  (Qabs (decimal_value units) <= Qabs value
   /\ Qabs value - Qabs (decimal_value units) < 1 # 100000000
   /\ 0 <= decimal_value units * value)%Q.
Proof.
  rewrite to_decimal_units in H.
  destruct value as [a b]. cbn [Qnum Qden] in H.
  destruct (quot_bounds (a * 100000000) (Z.pos b) ltac:(lia)) as [[B1 B2] B3].
  set (q := Z.quot (a * 100000000) (Z.pos b)) in *.
  destruct (_ <=? Z.abs q) eqn:E; [discriminate H |]. injection H as <-.
  rewrite Z.abs_mul in B1, B2. change (Z.abs 100000000) with 100000000 in B1, B2.
  unfold decimal_value, Qabs, Qle, Qlt, Qminus, Qplus, Qopp, Qmult.
  cbn [Qnum Qden].
  rewrite ?Pos2Z.inj_mul.
  repeat split; nia.
Qed.

Lemma to_decimal_truncates_witness :
  (Qabs (decimal_value 12345678) <= Qabs (123456789 # 1000000000)
   /\ Qabs (123456789 # 1000000000) - Qabs (decimal_value 12345678) < 1 # 100000000
   /\ 0 <= decimal_value 12345678 * (123456789 # 1000000000))%Q.
Proof.
  apply (to_decimal_truncates (123456789 # 1000000000) 12345678).
  reflexivity.
Defined.

(** A number that already has at most eight decimal places and fewer than
    29 digits is returned unchanged, so [to_decimal] applied to its own
    result changes nothing. *)
Theorem to_decimal_idempotent (value : Q) (units : Z)
    (H : to_decimal value = Some units) :
  to_decimal (decimal_value units) = Some units.
Proof.
  rewrite to_decimal_units in *.
  destruct (_ <=? _) eqn:E in H; [discriminate H |]. injection H as H.
  rewrite H in E.
  unfold decimal_value. cbn [Qnum Qden].
  rewrite Z.quot_mul by lia. now rewrite E.
Qed.

Lemma to_decimal_idempotent_witness :
  to_decimal (decimal_value 12345678) = Some 12345678.
Proof.
  apply (to_decimal_idempotent (123456789 # 1000000000) 12345678).
  reflexivity.
Defined.

(** [to_decimal] fails exactly for values of magnitude [1E20] and more:
    their result would need more than 28 digits. *)
Theorem to_decimal_overflow (value : Q) :
  to_decimal value = None <->
  (inject_Z 100000000000000000000 <= Qabs value)%Q.
Proof.
  rewrite to_decimal_units. destruct value as [a b]. cbn [Qnum Qden].
  destruct (quot_bounds (a * 100000000) (Z.pos b) ltac:(lia)) as [[B1 B2] _].
  set (q := Z.quot (a * 100000000) (Z.pos b)) in *.
  rewrite Z.abs_mul in B1, B2. change (Z.abs 100000000) with 100000000 in B1, B2.
  unfold Qabs, Qle, inject_Z. cbn [Qnum Qden].
  destruct (_ <=? Z.abs q) eqn:E.
  - apply Z.leb_le in E. split; [intros _ | reflexivity]. nia.
  - apply Z.leb_gt in E. split; [intros H; discriminate H |]. intros H. exfalso. nia.
Qed.

End ClockFacts.


(** ** Interval evaluator: size of the result and the role of the threshold *)

Module IntervalBounds.
Import Intervals IntervalFacts.

(** Number of rows whose label differs from the label of the row before. *)
Fixpoint changes (l : list bool) : nat :=
  match l with
  | x :: ((y :: _) as tl) => (if Bool.eqb x y then 0 else 1) + changes tl
  | _ => 0
  end.

Lemma changes_cons2 (x y : bool) (l : list bool) :
  changes (x :: y :: l) = ((if Bool.eqb x y then 0 else 1) + changes (y :: l))%nat.
Proof. reflexivity. Qed.

Lemma length_runs (df : list point_row) :
  df <> [] -> List.length (runs df) = S (changes (map label df)).
Proof.
  induction df as [| x [| y l] IH]; intros Hne; [congruence | reflexivity |].
  destruct (runs_cons2 x y l) as [ys [rs [E1 E2]]].
  rewrite E2. specialize (IH ltac:(discriminate)). rewrite E1 in IH.
  change (map label (x :: y :: l)) with (label x :: label y :: map label l).
  change (map label (y :: l)) with (label y :: map label l) in IH.
  rewrite changes_cons2.
  destruct (Bool.eqb (label x) (label y)); cbn [List.length Nat.add] in *; lia.
Qed.

Lemma changes_bound (l : list bool) : (changes l < Nat.max 1 (List.length l))%nat.
Proof.
  induction l as [| x [| y l] IH]; [cbn; lia | cbn; lia |].
  rewrite changes_cons2. cbn [List.length] in *. destruct (Bool.eqb x y); lia.
Qed.

Lemma number_runs_length (threshold : Q) (n : Z) (rs : list (list point_row)) :
  List.length (number_runs threshold n rs) = List.length rs.
Proof.
  revert n. induction rs as [| r rs IH]; intros n; simpl; [reflexivity |].
  now rewrite IH.
Qed.

(** The evaluator fails only on the empty table, with the [IndexError] of
    [out.iloc[0]]; on any other table it returns one row more than there
    are label changes in the column, so at least one row and at most as
    many as the table has. *)
Theorem interval_count (df : list point_row) (threshold : Q) :
  match find_interval_precision df threshold with
  | Ok rows =>
      df <> []
      /\ List.length rows = S (changes (map label df))
      /\ (1 <= List.length rows <= List.length df)%nat
  | Raise e => df = [] /\ e = IndexError
  end.
Proof.
  destruct df as [| x l]; [now split |].
  rewrite find_interval_precision_evaluate by discriminate.
  unfold evaluate. rewrite number_runs_length, length_runs by discriminate.
  split; [discriminate |]. split; [reflexivity |].
  pose proof (changes_bound (map label (x :: l))) as B.
  rewrite length_map in B. cbn [List.length] in *. lia.
Qed.

Lemma ge_threshold_mono (c : cell) (t1 t2 : Q) :
  t1 <= t2 -> ge c (Num t2) = true -> ge c (Num t1) = true.
Proof.
  intros Ht. destruct c as [x | | |]; cbn; try congruence.
  rewrite !Qle_bool_iff. intros H. now apply Qle_trans with t2.
Qed.

Lemma run_fires_mono (t1 t2 : Q) (r : list point_row) :
  t1 <= t2 -> run_fires t2 r = true -> run_fires t1 r = true.
Proof.
  intros Ht. unfold run_fires. rewrite !existsb_exists.
  intros [p [Hp H]]. exists p. split; [exact Hp |].
  now apply ge_threshold_mono with t2.
Qed.

Lemma number_runs_mono (t1 t2 : Q) (n : Z) (rs : list (list point_row)) :
  t1 <= t2 ->
  Forall2 (fun a b => interval_no a = interval_no b
                      /\ interval_label a = interval_label b
                      /\ (interval_score b = true -> interval_score a = true))
          (number_runs t1 n rs) (number_runs t2 n rs).
Proof.
  intros Ht. revert n. induction rs as [| r rs IH]; intros n; simpl; constructor.
  - cbn. repeat split. now apply run_fires_mono.
  - apply IH.
Qed.

(** The threshold decides the scores only: with a higher threshold the
    evaluator returns the same intervals with the same labels, and an
    interval that scores true then scores true with the lower threshold
    as well. *)
Theorem threshold_only_lowers_scores (df : list point_row) (t1 t2 : Q)
    (Hne : df <> []) (Ht : t1 <= t2) :
  exists rows1 rows2,
    find_interval_precision df t1 = Ok rows1
    /\ find_interval_precision df t2 = Ok rows2
    /\ Forall2 (fun a b => interval_no a = interval_no b
                           /\ interval_label a = interval_label b
                           /\ (interval_score b = true -> interval_score a = true))
               rows1 rows2.
Proof.
  exists (evaluate df t1), (evaluate df t2).
  split; [now apply find_interval_precision_evaluate |].
  split; [now apply find_interval_precision_evaluate |].
  now apply number_runs_mono.
Qed.

Lemma threshold_only_lowers_scores_witness :
  exists rows1 rows2,
    find_interval_precision example_points (1 # 2) = Ok rows1
    /\ find_interval_precision example_points (19 # 20) = Ok rows2
    /\ Forall2 (fun a b => interval_no a = interval_no b
                           /\ interval_label a = interval_label b
                           /\ (interval_score b = true -> interval_score a = true))
               rows1 rows2.
Proof.
  apply (threshold_only_lowers_scores example_points (1 # 2) (19 # 20)).
  - discriminate.
  - unfold Qle. simpl. lia.
Defined.

End IntervalBounds.
